(** * Equal-weight S&P 500 and quantitative momentum scripts

    A shallow embedding of the two scripts of the repository,
    [equal_weight_spdr.py] and [momentum_investing.py], and the properties
    of their batching, row collection, ranking and allocation steps.

    Conventions of the embedding.
    - Numbers are rationals ([Q]) and equality of numbers is [Qeq].  The
      scripts are modelled in exact arithmetic, which shows which formula
      and which divisor a cell is computed with; where the rounding of
      Python's binary64 floats decides the outcome, the floor of the first
      script's share loop, the loop is modelled a second time with every
      quotient rounded ([Binary64]).
    - A missing value of the exact model is Python's [None].  pandas holds
      a null as [None] when a number precedes it in its column, and as NaN
      when none does; the properties of the loops that test for [None] or
      compute with it are stated for the frames that hold no such NaN
      ([no_leading_null]).
    - A statement that can raise returns a [result]: [Ok v], or [Raise e]
      with the Python exception [e].  Neither script catches anything but
      the [ValueError] of the first [float(...)], so any other [Raise] ends
      the run.
    - A pandas DataFrame whose index is [0 .. n-1] is the list of its rows
      and [df.loc[i, col]] is a field of the [i]-th row; a frame whose
      labels were permuted by a sort is a list of (label, row) pairs.
    - A JSON number-or-null and a column holding floats and [None] is an
      [option Q]; a column created with the placeholder ['N/A'] is a
      [filled]. *)

From Stdlib Require Import QArith Qround Qabs Qpower ZArith Lia.
From Stdlib Require Import Permutation Sorted.
From Stdlib Require Import Ascii.
From stdpp Require Import gmap strings list sorting.

(** ** Python primitives used by the scripts *)

Module Py.

(** The exceptions the modelled statements can raise.  [LabelError] is the
    [KeyError] of [df.loc[i, col]] for a row label that is not in the
    index. *)
Inductive exn : Type :=
| ZeroDivisionError
| TypeError
| ValueError
| OverflowError
| KeyError (key : string)
| LabelError (label : nat)
| EOFError.

Inductive result (A : Type) : Type :=
| Ok (a : A)
| Raise (e : exn).
Arguments Ok {A} a.
Arguments Raise {A} e.

Definition bind {A B} (r : result A) (f : A -> result B) : result B :=
  match r with
  | Ok a => f a
  | Raise e => Raise e
  end.

(** [for x in xs: body], threading the loop state and stopping at the first
    exception. *)
Fixpoint for_each {S X} (body : X -> S -> result S) (xs : list X) (s : S)
  : result S :=
  match xs with
  | [] => Ok s
  | x :: xs' => bind (body x s) (for_each body xs')
  end.

(** A list built item by item, stopping at the first exception. *)
Fixpoint traverse {X Y} (f : X -> result Y) (xs : list X) : result (list Y) :=
  match xs with
  | [] => Ok []
  | x :: xs' =>
      bind (f x) (fun y => bind (traverse f xs') (fun ys => Ok (y :: ys)))
  end.

(** [range(start, stop, step)] for a non-negative step: CPython computes
    the number of items first and the [k]-th item is [start + k * step];
    a zero step raises [ValueError]. *)
Definition range_length (start stop step : nat) : nat :=
  (stop - start + step - 1) / step.

Definition range (start stop step : nat) : result (list nat) :=
  if (step =? 0)%nat then Raise ValueError
  else Ok (map (fun k => start + k * step)%nat
               (seq 0 (range_length start stop step))).

(** [lst[i:j]]: both bounds are clamped to the length. *)
Definition slice {A} (lst : list A) (i j : nat) : list A :=
  firstn (j - i) (skipn i lst).

(** [sep.join(items)]. *)
Definition join (sep : string) (items : list string) : string :=
  String.concat sep items.

(** [s.split(sep)] for a one-character separator: never an empty list. *)
Fixpoint split (sep : Ascii.ascii) (s : string) : list string :=
  match s with
  | EmptyString => [EmptyString]
  | String c s' =>
      if Ascii.eqb c sep then EmptyString :: split sep s'
      else match split sep s' with
           | [] => [String c EmptyString]
           | w :: ws => String c w :: ws
           end
  end.

(** An [int] as a [float]. *)
Definition of_nat (k : nat) : Q := inject_Z (Z.of_nat k).

(** A number is wanted and the value may be [None]: arithmetic and
    comparison with [None] raise [TypeError].  (A null that pandas holds
    as NaN is a float and raises nothing; see [Binary64.cell].) *)
Definition number (v : option Q) : result Q :=
  match v with
  | Some q => Ok q
  | None => Raise TypeError
  end.

(** [x / y] between Python numbers in exact arithmetic: a zero divisor
    raises.  (The quotient as binary64 rounds it, and the division by a
    [numpy.float64] cell, which raises nothing, are [Binary64.truediv].) *)
Definition truediv (x y : Q) : result Q :=
  if Qeq_bool y 0 then Raise ZeroDivisionError else Ok (x / y)%Q.

(** [math.floor]. *)
Definition floor (x : Q) : Z := Qfloor x.

(** [statistics.mean] of a non-empty list. *)
Definition mean (data : list Q) : Q :=
  (fold_right Qplus 0 data / of_nat (length data))%Q.

(** Standard input and output; [input(prompt)] writes the prompt and reads
    one line. *)
Record world : Type := World { stdin : list string; stdout : list string }.

Definition print (msg : string) (w : world) : world :=
  {| stdin := stdin w; stdout := stdout w ++ [msg] |}.

Definition input (prompt : string) (w : world) : result (string * world) :=
  match stdin w with
  | [] => Raise EOFError
  | line :: rest => Ok (line, {| stdin := rest; stdout := stdout w ++ [prompt] |})
  end.

End Py.
Import Py.

Notation "'let*' x ':=' c1 'in' c2" := (Py.bind c1 (fun x => c2))
  (at level 10, x name, c1 at level 100, c2 at level 200).

(** ** Python floats as IEEE 754 binary64 *)

Module Binary64.

(** A float is a finite number, an infinity or NaN; a finite float is
    given by its value.  The signs of zero and of the infinities are not
    kept. *)
Inductive float : Type :=
| finite (q : Q)
| inf
| nan.

Definition pow2 (e : Z) : Q := (2 ^ e)%Q.

(** Half the distance from 1.0 to the next float, and the smallest
    positive float with 53 significant bits. *)
Definition unit_roundoff : Q := pow2 (-53).
Definition min_normal : Q := pow2 (-1022).

(** The exponent of the last binary place of the float nearest to [x]: 53
    significant bits, and no place below [2^-1074]. *)
Definition exponent (x : Q) : Z :=
  let e0 := (Z.log2 (Z.abs (Qnum x)) - Z.log2 (Zpos (Qden x)) - 53)%Z in
  let e := if Qle_bool (pow2 (e0 + 53)) (Qabs x) then (e0 + 1)%Z else e0 in
  Z.max e (-1074).

(** The nearest integer, a tie going to the even one. *)
Definition nearest_even (y : Q) : Z :=
  let f := Qfloor y in
  match Qcompare (y - inject_Z f) (1 # 2) with
  | Lt => f
  | Gt => (f + 1)%Z
  | Eq => if Z.even f then f else (f + 1)%Z
  end.

(** [x] rounded to the nearest number with 53 significant bits, a tie
    going to the even one, before the range is looked at. *)
Definition round (x : Q) : Q :=
  let e := exponent x in
  (inject_Z (nearest_even (x / pow2 e)) * pow2 e)%Q.

(** The float an exact result is delivered as: from [2^1024] on the
    rounded value is an infinity. *)
Definition of_Q (x : Q) : float :=
  let r := round x in
  if Qle_bool (pow2 1024) (Qabs r) then inf else finite r.

(** A cell read from a float64 column: a [numpy.float64], NaN where the
    column has no value. *)
Definition cell (v : option Q) : float :=
  match v with
  | Some q => finite q
  | None => nan
  end.

(** [x / n] for a Python float [x] and an [int] [n]: a zero divisor
    raises, otherwise the quotient is rounded. *)
Definition truediv_int (x : Q) (n : nat) : result float :=
  if (n =? 0)%nat then Raise ZeroDivisionError else Ok (of_Q (x / of_nat n)).

(** [x / y] where [y] is a [numpy.float64]: the IEEE 754 quotient, with
    a warning at most; a zero divisor gives an infinity or NaN. *)
Definition truediv (x y : float) : float :=
  match x, y with
  | nan, _ | _, nan => nan
  | inf, inf => nan
  | inf, finite _ => inf
  | finite _, inf => finite 0
  | finite a, finite b =>
      if Qeq_bool b 0 then (if Qeq_bool a 0 then nan else inf)
      else of_Q (a / b)
  end.

(** [math.floor]: an infinity raises [OverflowError], NaN raises
    [ValueError]. *)
Definition floor (x : float) : result Z :=
  match x with
  | finite q => Ok (Qfloor q)
  | inf => Raise OverflowError
  | nan => Raise ValueError
  end.

End Binary64.

(** A cell of a column that is created holding the string ['N/A']. *)
Inductive filled (A : Type) : Type :=
| NA
| Val (a : A).
Arguments NA {A}.
Arguments Val {A} a.

(** ** scipy.stats.percentileofscore *)

Module Scipy.

(** The [kind] argument; the default is [rank]. *)
Inductive kind : Type := rank | weak | strict | mean.

Definition Qlt_bool (x y : Q) : bool := negb (Qle_bool y x).

(** [np.count_nonzero(a < score)] and [np.count_nonzero(a <= score)]. *)
Definition count_lt (a : list Q) (score : Q) : nat :=
  length (List.filter (fun x => Qlt_bool x score) a).

Definition count_le (a : list Q) (score : Q) : nat :=
  length (List.filter (fun x => Qle_bool x score) a).

(** The percentile of [score] in [a], in [0, 100], for a non-empty [a]. *)
Definition percentileofscore (a : list Q) (score : Q) (k : kind) : Q :=
  let n := of_nat (length a) in
  let left := count_lt a score in
  let right := count_le a score in
  match k with
  | rank =>
      (of_nat (left + right + (if (left <? right)%nat then 1 else 0))
       * 50 / n)%Q
  | weak => (of_nat right / n * 100)%Q
  | strict => (of_nat left / n * 100)%Q
  | mean => (of_nat (left + right) / n * 50)%Q
  end.

End Scipy.

(** ** pandas: sort_values, head *)

Module Pandas.

(** The [kind] argument of [sort_values]; the default is [quicksort], and
    only [mergesort] and [stable] are stable. *)
Inductive sort_kind : Type := quicksort | mergesort | heapsort | stable.

Definition is_stable (k : sort_kind) : bool :=
  match k with
  | mergesort | stable => true
  | quicksort | heapsort => false
  end.

Section Frames.
Context {R : Type}.
Variable by_col : R -> option Q.

(** A frame with its row labels [0 .. n-1] written out. *)
Definition labelled (df : list R) : list (nat * R) :=
  imap (fun i r => (i, r)) df.

(** [isna]: a missing value of the sort column. *)
Definition isna (x : nat * R) : bool :=
  match by_col (snd x) with
  | None => true
  | Some _ => false
  end.

Definition notna (x : nat * R) : bool := negb (isna x).

(** [x] may come before [y] in a descending sort. *)
Definition desc (x y : nat * R) : Prop :=
  match by_col (snd x), by_col (snd y) with
  | Some a, Some b => (b <= a)%Q
  | _, _ => True
  end.

Definition same_key (x y : nat * R) : Prop :=
  match by_col (snd x), by_col (snd y) with
  | Some a, Some b => a == b
  | None, None => True
  | _, _ => False
  end.

(** Rows with equal sort keys are in the order of their labels, that is in
    the order they had before the sort. *)
Definition keeps_tie_order (out : list (nat * R)) : Prop :=
  forall i j x y,
    (i < j)%nat -> out !! i = Some x -> out !! j = Some y ->
    same_key x y -> (fst x < fst y)%nat.

(** [df.sort_values(by, ascending=False, kind=kind)] with the default
    [na_position='last']: the rows with a value are arranged in descending
    order, the rows without one follow in their original order.  What a
    sort that is not stable does with equal keys is left open. *)
Inductive sort_values_descending (kind : sort_kind) (df : list R)
  : list (nat * R) -> Prop :=
| SortValues (body : list (nat * R)) :
    Permutation body (List.filter notna (labelled df)) ->
    StronglySorted desc body ->
    (is_stable kind = true -> keeps_tie_order body) ->
    sort_values_descending kind df (body ++ List.filter isna (labelled df)).

(** [df.head(n)] and [df[:n]]. *)
Definition head {X} (n : nat) (df : list X) : list X := firstn n df.

End Frames.

End Pandas.

(** ** equal_weight_spdr.py *)

Module EqualWeight.

(** [data[symbol]['quote']] of a batch response. *)
Record quote : Type := Quote {
  latestPrice : option Q;
  marketCap : option Q
}.

(** A row of [final_df], columns [my_columns]. *)
Record row : Type := Row {
  Ticker : string;
  Stock_Price : option Q;
  Market_Capitalization : option Q;
  Number_of_Shares_to_Buy : filled Z
}.

(** [def chucks(lst, n)]: [for i in range(0, len(lst), n): yield lst[i:i + n]],
    collected by [list(...)]. *)
Definition chucks {A} (lst : list A) (n : nat) : result (list (list A)) :=
  let* idx := range 0 (length lst) n in
  Ok (map (fun i => slice lst i (i + n)) idx).

Definition prompt : string := "Enter the value of your portfolio:".

Section Script.

(** [requests.get(batch_api_call_url).json()], by the symbol string the URL
    is built from; [float] is the built-in, [None] standing for its
    [ValueError]. *)
Variable batch_api_call : string -> gmap string quote.
Variable float : string -> option Q.

Definition symbol_strings (symbol_groups : list (list string)) : list string :=
  map (join ",") symbol_groups.

(** The body of [for symbol in symbol_string.split(',')]. *)
Definition append_row (data : gmap string quote) (symbol : string)
  (final_df : list row) : result (list row) :=
  match data !! symbol with
  | None => Raise (KeyError symbol)
  | Some q => Ok (final_df ++ [Row symbol (latestPrice q) (marketCap q) NA])
  end.

(** The body of [for symbol_string in symbol_strings]. *)
Definition batch_loop (symbol_string : string) (final_df : list row)
  : result (list row) :=
  let data := batch_api_call symbol_string in
  for_each (append_row data) (split ","%char symbol_string) final_df.

(** Cell [In[16]]: from the ticker column to the filled frame. *)
Definition build_final_df (tickers : list string) : result (list row) :=
  let* symbol_groups := chucks tickers 100 in
  for_each batch_loop (symbol_strings symbol_groups) [].

(** Cell [In[26]]: the prompt, with one retry. *)
Definition read_val (w : world) : result (Q * world) :=
  let* r := input prompt w in
  match float (fst r) with
  | Some val => Ok (val, snd r)
  | None =>
      let w' := print "That's not a number! \nPlease enter an integer:" (snd r) in
      let* r' := input prompt w' in
      match float (fst r') with
      | Some val => Ok (val, snd r')
      | None => Raise ValueError
      end
  end.

(** [final_df.loc[i, 'Number of Shares to Buy'] =
      math.floor(position_size/final_df.loc[i, 'Stock Price'])], in exact
    arithmetic and for a price that Python holds as a number or [None];
    [shares_step_binary64] below is the same statement with the quotient
    rounded. *)
Definition shares_step (position_size : Q) (i : nat) (final_df : list row)
  : result (list row) :=
  match final_df !! i with
  | None => Raise (LabelError i)
  | Some r =>
      let* price := number (Stock_Price r) in
      let* q := truediv position_size price in
      Ok (<[i := Row (Ticker r) (Stock_Price r) (Market_Capitalization r)
                     (Val (floor q))]> final_df)
  end.

(** Cell [In[30]]. *)
Definition allocate (val : Q) (final_df : list row) : result (list row) :=
  let* position_size := truediv val (of_nat (length final_df)) in
  let* idx := range 0 (length final_df) 1 in
  for_each (shares_step position_size) idx final_df.

(** Cell [In[30]] as binary64 computes it, for a ['Stock Price'] column
    that pandas holds as float64: [val/len(final_df.index)] is rounded,
    each quotient by a price is rounded again, and [math.floor] is applied
    to the rounded quotient. *)
Definition shares_step_binary64 (position_size : Binary64.float) (i : nat)
  (final_df : list row) : result (list row) :=
  match final_df !! i with
  | None => Raise (LabelError i)
  | Some r =>
      let* shares :=
        Binary64.floor
          (Binary64.truediv position_size (Binary64.cell (Stock_Price r))) in
      Ok (<[i := Row (Ticker r) (Stock_Price r) (Market_Capitalization r)
                     (Val shares)]> final_df)
  end.

Definition allocate_binary64 (val : Q) (final_df : list row)
  : result (list row) :=
  let* position_size := Binary64.truediv_int val (length final_df) in
  let* idx := range 0 (length final_df) 1 in
  for_each (shares_step_binary64 position_size) idx final_df.

(** The script after its imports; the loop of cell [In[8]], one request
    per stock, fills a frame that cell [In[16]] replaces and is left out. *)
Definition script (tickers : list string) (w : world)
  : result (list row * world) :=
  let* final_df := build_final_df tickers in
  let* r := read_val w in
  let* final_df := allocate (fst r) final_df in
  Ok (final_df, snd r).

End Script.

End EqualWeight.

(** ** momentum_investing.py *)

Module Momentum.

(** [data[symbol]['stats']] and [data[symbol]] of a batch response. *)
Record stats : Type := Stats {
  year1ChangePercent : option Q;
  month6ChangePercent : option Q;
  month3ChangePercent : option Q;
  month1ChangePercent : option Q
}.

Record stock : Type := Stock {
  price : option Q;
  stock_stats : stats
}.

(** A row of [final_df], columns [my_columns]. *)
Record row : Type := Row {
  Ticker : string;
  Price : option Q;
  One_Year_Price_Return : option Q;
  Number_of_Shares_to_Buy : filled Q
}.

(** A row of [hqm_df], columns [hqm_columns] and then ['HQM Score']. *)
Record hqm_row : Type := HqmRow {
  hqm_Ticker : string;
  hqm_Price : option Q;
  hqm_Number_of_Shares_to_Buy : filled Q;
  hqm_One_Year_Price_Return : option Q;
  hqm_One_Year_Return_Percentile : filled Q;
  hqm_Six_Month_Price_Return : option Q;
  hqm_Six_Month_Return_Percentile : filled Q;
  hqm_Three_Month_Price_Return : option Q;
  hqm_Three_Month_Return_Percentile : filled Q;
  hqm_One_Month_Price_Return : option Q;
  hqm_One_Month_Return_Percentile : filled Q;
  HQM_Score : filled Q
}.

Inductive time_period : Type := One_Year | Six_Month | Three_Month | One_Month.

Definition time_periods : list time_period :=
  [One_Year; Six_Month; Three_Month; One_Month].

(** [hqm_df.loc[row, f'{time_period} Price Return']], read and written. *)
Definition change_col (tp : time_period) (r : hqm_row) : option Q :=
  match tp with
  | One_Year => hqm_One_Year_Price_Return r
  | Six_Month => hqm_Six_Month_Price_Return r
  | Three_Month => hqm_Three_Month_Price_Return r
  | One_Month => hqm_One_Month_Price_Return r
  end.


(** [hqm_df.loc[row, f'{time_period} Return Percentile']], read and
    written. *)
Definition percentile_col (tp : time_period) (r : hqm_row) : filled Q :=
  match tp with
  | One_Year => hqm_One_Year_Return_Percentile r
  | Six_Month => hqm_Six_Month_Return_Percentile r
  | Three_Month => hqm_Three_Month_Return_Percentile r
  | One_Month => hqm_One_Month_Return_Percentile r
  end.

Definition set_percentile_col (tp : time_period) (v : filled Q) (r : hqm_row)
  : hqm_row :=
  let '(HqmRow t p s y yp x xp m mp o op h) := r in
  match tp with
  | One_Year => HqmRow t p s y v x xp m mp o op h
  | Six_Month => HqmRow t p s y yp x v m mp o op h
  | Three_Month => HqmRow t p s y yp x xp m v o op h
  | One_Month => HqmRow t p s y yp x xp m mp o v h
  end.

Definition set_HQM_Score (v : filled Q) (r : hqm_row) : hqm_row :=
  let '(HqmRow t p s y yp x xp m mp o op _) := r in
  HqmRow t p s y yp x xp m mp o op v.

Definition set_hqm_shares (v : filled Q) (r : hqm_row) : hqm_row :=
  let '(HqmRow t p _ y yp x xp m mp o op h) := r in
  HqmRow t p v y yp x xp m mp o op h.


(** The sort key of ['HQM Score']: a cell never assigned is missing. *)
Definition score_key (r : hqm_row) : option Q :=
  match HQM_Score r with
  | Val q => Some q
  | NA => None
  end.

(** [def chunks(lst, n)]: the generator of the first script under its other
    name. *)
Definition chunks {A} (lst : list A) (n : nat) : result (list (list A)) :=
  let* idx := range 0 (length lst) n in
  Ok (map (fun i => slice lst i (i + n)) idx).

(** [from scipy.stats import percentileofscore as score], called without
    [kind]; comparing an array that holds [None], or with [None], raises
    the [TypeError] the script's comment quotes.  (With NaN in place of
    [None] scipy raises nothing and returns NaN.) *)
Definition score (a : list (option Q)) (v : option Q) : result Q :=
  let* a' := traverse number a in
  let* v' := number v in
  Ok (Scipy.percentileofscore a' v' Scipy.rank).

Definition prompt : string := "Enter the value of your portfolio:".

Section Script.

Variable batch_api_call : string -> gmap string stock.
Variable float : string -> option Q.

Definition symbol_strings (symbol_groups : list (list string)) : list string :=
  map (join ",") symbol_groups.

(** *** The one-year momentum screen *)

Definition append_row (data : gmap string stock) (symbol : string)
  (final_df : list row) : result (list row) :=
  match data !! symbol with
  | None => Raise (KeyError symbol)
  | Some d =>
      Ok (final_df ++ [Row symbol (price d) (year1ChangePercent (stock_stats d)) NA])
  end.

Definition batch_loop (symbol_string : string) (final_df : list row)
  : result (list row) :=
  let data := batch_api_call symbol_string in
  for_each (append_row data) (split ","%char symbol_string) final_df.

(** Cells [In[5]] and [In[6]]. *)
Definition build_final_df (tickers : list string) : result (list row) :=
  let* symbol_groups := chunks tickers 100 in
  for_each batch_loop (symbol_strings symbol_groups) [].

(** Cell [In[7]]: [sort_values('One-Year Price Return', ascending=False)],
    [head(n)] and [reset_index()], which keeps the old labels as the column
    ['index']; the script has [n = 50]. *)
Definition top_n (n : nat) (final_df : list row) (out : list (nat * row)) : Prop :=
  exists sorted,
    Pandas.sort_values_descending One_Year_Price_Return Pandas.quicksort
      final_df sorted
    /\ out = Pandas.head n sorted.

Definition remove_low_momentum := top_n 50.

(** Cell [In[8]]: [portfolio_input()], returning the global
    [portfolio_size]. *)
Definition portfolio_input (w : world) : result (string * world) :=
  let* r := input prompt w in
  match float (fst r) with
  | Some val => Ok (fst r, snd r)
  | None =>
      let w' := print "That's not a number! \n Try again:" (snd r) in
      input prompt w'
  end.

(** [final_df.loc[i, 'Number of Shares to Buy'] =
      position_size/final_df.loc[i, 'Price']]. *)
Definition shares_step (position_size : Q) (i : nat)
  (final_df : list (nat * row)) : result (list (nat * row)) :=
  match final_df !! i with
  | None => Raise (LabelError i)
  | Some (l, r) =>
      let* p := number (Price r) in
      let* q := truediv position_size p in
      Ok (<[i := (l, Row (Ticker r) (Price r) (One_Year_Price_Return r) (Val q))]>
            final_df)
  end.

Definition allocate (portfolio_size : string) (final_df : list (nat * row))
  : result (list (nat * row)) :=
  let* val := match float portfolio_size with
              | Some v => Ok v
              | None => Raise ValueError
              end in
  let* position_size := truediv val (of_nat (length final_df)) in
  let* idx := range 0 (length final_df) 1 in
  for_each (shares_step position_size) idx final_df.

(** *** The high-quality momentum strategy *)

Definition hqm_append_row (data : gmap string stock) (symbol : string)
  (hqm_df : list hqm_row) : result (list hqm_row) :=
  match data !! symbol with
  | None => Raise (KeyError symbol)
  | Some d =>
      let s := stock_stats d in
      Ok (hqm_df ++
          [HqmRow symbol (price d) NA
                  (year1ChangePercent s) NA (month6ChangePercent s) NA
                  (month3ChangePercent s) NA (month1ChangePercent s) NA NA])
  end.

Definition hqm_batch_loop (symbol_string : string) (hqm_df : list hqm_row)
  : result (list hqm_row) :=
  let data := batch_api_call symbol_string in
  for_each (hqm_append_row data) (split ","%char symbol_string) hqm_df.

Definition build_hqm_df (tickers : list string) : result (list hqm_row) :=
  let* symbol_groups := chunks tickers 100 in
  for_each hqm_batch_loop (symbol_strings symbol_groups) [].



(** [hqm_df.loc[row, percentile_col] =
      score(hqm_df[change_col], hqm_df.loc[row, change_col])/100]. *)
Definition percentile_cell (row : nat) (tp : time_period)
  (hqm_df : list hqm_row) : result (list hqm_row) :=
  match hqm_df !! row with
  | None => Raise (LabelError row)
  | Some r =>
      let* p := score (map (change_col tp) hqm_df) (change_col tp r) in
      Ok (<[row := set_percentile_col tp (Val (p / 100)%Q) r]> hqm_df)
  end.

Definition percentiles (hqm_df : list hqm_row) : result (list hqm_row) :=
  for_each (fun row => for_each (percentile_cell row) time_periods)
           (seq 0 (length hqm_df)) hqm_df.



(** [sort_values('HQM Score', ascending=False)], [hqm_df[:n]] and
    [reset_index(drop=True)]; the script has [n = 50].  The column
    ['HQM Score'] is not among [hqm_columns]: the first assignment of the
    score loop creates it, so a frame without rows has no such column and
    sorting by it raises [KeyError]. *)
Definition best_n (n : nat) (hqm_df : list hqm_row) (out : list hqm_row) : Prop :=
  hqm_df <> [] /\
  exists sorted,
    Pandas.sort_values_descending score_key Pandas.quicksort hqm_df sorted
    /\ out = map snd (Pandas.head n sorted).

Definition best_n_raises (hqm_df : list hqm_row) (e : exn) : Prop :=
  hqm_df = [] /\ e = KeyError "HQM Score".

Definition select_best := best_n 50.

(** [hqm_df.loc[i, 'Number of Shares to Buy'] =
      position_size/hqm_df.loc[i, 'Price']]. *)
Definition hqm_shares_step (position_size : Q) (i : nat)
  (hqm_df : list hqm_row) : result (list hqm_row) :=
  match hqm_df !! i with
  | None => Raise (LabelError i)
  | Some r =>
      let* p := number (hqm_Price r) in
      let* q := truediv position_size p in
      Ok (<[i := set_hqm_shares (Val q) r]> hqm_df)
  end.

Definition hqm_allocate (portfolio_size : string) (hqm_df : list hqm_row)
  : result (list hqm_row) :=
  let* val := match float portfolio_size with
              | Some v => Ok v
              | None => Raise ValueError
              end in
  let* position_size := truediv val (of_nat (length hqm_df)) in
  for_each (hqm_shares_step position_size) (seq 0 (length hqm_df)) hqm_df.


(** The screen, from the prompt to the share counts: [portfolio_input()],
    [print(portfolio_size)] and the share loop. *)
Definition screen_allocation (out : list (nat * row)) (w : world)
  : result (list (nat * row) * world) :=
  let* r := portfolio_input w in
  let w' := print (fst r) (snd r) in
  let* final_df := allocate (fst r) out in
  Ok (final_df, w').

(** The strategy, from its prompt to the share counts. *)
Definition hqm_allocation (hqm_df : list hqm_row) (w : world)
  : result (list hqm_row * world) :=
  let* r := portfolio_input w in
  let* hqm_df := hqm_allocate (fst r) hqm_df in
  Ok (hqm_df, snd r).

End Script.

End Momentum.

(** ** The spreadsheets *)

Module Xlsx.

(** The properties a script gives to [writer.book.add_format]. *)
Record format : Type := Format {
  num_format : option string;
  font_color : string;
  bg_color : string;
  border : nat
}.

(** A worksheet as the scripts use it: the cells written, by reference,
    each with its text and the format it was written with if any, and the
    width and format set for column ranges. *)
Record worksheet : Type := Worksheet {
  cells : gmap string (string * option format);
  columns : gmap string (nat * format)
}.

(** [worksheet.write(cell, text, fmt)]: a later write replaces an earlier
    one. *)
Definition write (cell text : string) (fmt : format) (ws : worksheet)
  : worksheet :=
  {| cells := <[cell := (text, Some fmt)]> (cells ws); columns := columns ws |}.

(** [worksheet.set_column(range, width, fmt)]. *)
Definition set_column (range : string) (width : nat) (fmt : format)
  (ws : worksheet) : worksheet :=
  {| cells := cells ws; columns := <[range := (width, fmt)]> (columns ws) |}.

Definition letters : list string :=
  ["A"; "B"; "C"; "D"; "E"; "F"; "G"; "H"; "I"; "J"; "K"; "L"; "M";
   "N"; "O"; "P"; "Q"; "R"; "S"; "T"; "U"; "V"; "W"; "X"; "Y"; "Z"]%string.

(** The header row of [df.to_excel(writer, sheet, index=False)] for a frame
    of at most 26 columns: the name of the [k]-th column in row 1 under the
    [k]-th letter, where its data goes. *)
Definition to_excel_header (df_columns : list string) : worksheet :=
  {| cells :=
       list_to_map
         (zip (map (fun l => (l ++ "1")%string) letters)
              (map (fun c => (c, None)) df_columns));
     columns := ∅ |}.

(** [for column in column_formats.keys()]: [set_column] with width [width]
    and [write] of the header, both with [column_formats[column][1]]. *)
Definition format_columns (width : nat)
  (column_formats : list (string * (string * format))) (ws : worksheet)
  : worksheet :=
  fold_left
    (fun ws entry =>
       let column := fst entry in
       write (column ++ "1")%string (fst (snd entry)) (snd (snd entry))
         (set_column (column ++ ":" ++ column)%string width (snd (snd entry))
            ws))
    column_formats ws.

End Xlsx.

(** The sheet ['Recommended Trades'] of the first script. *)
Module EqualWeightSheet.
Import Xlsx.

Definition background_color : string := "#0a0a23".
Definition font_color : string := "#ffffff".

Definition string_format : format :=
  Format None font_color background_color 1.
Definition dollar_format : format :=
  Format (Some "$0.00"%string) font_color background_color 1.
Definition float_format : format :=
  Format (Some "0.00"%string) font_color background_color 1.

Definition my_columns : list string :=
  ["Ticker"; "Stock Price"; "Market Capitalization";
   "Number of Shares to Buy"]%string.

Definition column_formats : list (string * (string * format)) :=
  [("A", ("Ticker", string_format));
   ("B", ("Stock Price", dollar_format));
   ("C", ("Market Capitalization", dollar_format));
   ("D", ("Number of Shares to Buy", float_format))]%string.

(** Cells [In[74]] to [In[78]]: [to_excel], the four [write] calls and the
    loop over [column_formats]. *)
Definition recommended_trades : worksheet :=
  format_columns 18 column_formats
    (write "D1" "Number of Shares to Buy" float_format
       (write "C1" "Market Capitalization" dollar_format
          (write "B1" "Stock Price" dollar_format
             (write "A1" "Ticker" string_format
                (to_excel_header my_columns))))).

End EqualWeightSheet.

(** The sheet ['Momentum Strategy'] of the second script. *)
Module MomentumSheet.
Import Xlsx.

Definition background_color : string := "#0a0a23".
Definition font_color : string := "#ffffff".

Definition string_template : format :=
  Format None font_color background_color 1.
Definition dollar_template : format :=
  Format (Some "$0.00"%string) font_color background_color 1.
Definition integer_template : format :=
  Format (Some "0"%string) font_color background_color 1.
Definition percent_template : format :=
  Format (Some "0.0%"%string) font_color background_color 1.
Definition float_template : format :=
  Format (Some "0.00"%string) font_color background_color 1.

Definition hqm_columns : list string :=
  ["Ticker"; "Price"; "Number of Shares to Buy";
   "One-Year Price Return"; "One-Year Return Percentile";
   "Six-Month Price Return"; "Six-Month Return Percentile";
   "Three-Month Price Return"; "Three-Month Return Percentile";
   "One-Month Price Return"; "One-Month Return Percentile"]%string.

(** The columns of [hqm_df] when it is written: the score loop has added
    ['HQM Score'] after the columns the frame was created with. *)
Definition written_columns : list string := hqm_columns ++ ["HQM Score"%string].

Definition column_formats : list (string * (string * format)) :=
  [("A", ("Ticker", string_template));
   ("B", ("Price", dollar_template));
   ("C", ("Number of Shares to Buy", float_template));
   ("D", ("One-Year Price Return", percent_template));
   ("E", ("One-Year Return Percentile", percent_template));
   ("F", ("Six-Month Price Return", percent_template));
   ("G", ("Six-Month Return Percentile", percent_template));
   ("H", ("Three-Month Price Return", percent_template));
   ("J", ("Three-Month Return Percentile", percent_template));
   ("K", ("One-Month Price Return", percent_template));
   ("L", ("One-Month Return Percentile", percent_template))]%string.

(** [to_excel] and the loop over [column_formats], with width 22. *)
Definition momentum_strategy : worksheet :=
  format_columns 22 column_formats (to_excel_header written_columns).

End MomentumSheet.

(** * Vocabulary of the properties *)

(** What the allocation of the first script spends: the sum over the rows
    of shares times price. *)
Definition cost (r : EqualWeight.row) : Q :=
  match EqualWeight.Number_of_Shares_to_Buy r, EqualWeight.Stock_Price r with
  | Val shares, Some p => (inject_Z shares * p)%Q
  | _, _ => 0%Q
  end.

Definition total_cost (final_df : list EqualWeight.row) : Q :=
  fold_right (fun r acc => (cost r + acc)%Q) 0%Q final_df.

(** A row has a price, and it is positive. *)
Definition positive_price (price : option Q) : Prop :=
  exists p, price = Some p /\ (0 < p)%Q.

(** A number that is whole. *)
Definition integral (q : Q) : Prop := exists z : Z, q == inject_Z z.

(** One iteration of the share loop of the first script, on the row it
    rewrites. *)
Definition shares_of (position_size : Q) (r : EqualWeight.row)
  : result EqualWeight.row :=
  let* price := number (EqualWeight.Stock_Price r) in
  let* q := truediv position_size price in
  Ok (EqualWeight.Row (EqualWeight.Ticker r) (EqualWeight.Stock_Price r)
        (EqualWeight.Market_Capitalization r) (Val (floor q))).

(** An instance of [float] for the examples: unsigned decimal integers, as
    [float] reads them; anything else is taken as not a number. *)
Definition digit_value (c : Ascii.ascii) : option Z :=
  let n := Z.of_N (Ascii.N_of_ascii c) in
  if ((48 <=? n) && (n <=? 57))%Z then Some (n - 48)%Z else None.

Fixpoint digits_value (s : string) (acc : Z) : option Z :=
  match s with
  | EmptyString => Some acc
  | String c s' =>
      match digit_value c with
      | Some d => digits_value s' (10 * acc + d)%Z
      | None => None
      end
  end.

Definition float_of_digits (s : string) : option Q :=
  match s with
  | EmptyString => None
  | _ => option_map inject_Z (digits_value s 0%Z)
  end.

(** A symbol is a key of a batch response. *)
Definition present {V} (data : gmap string V) (symbol : string) : Prop :=
  is_Some (data !! symbol).

(** The return of a row over a horizon as the ranking reads it once the
    missing ones are set to [0.0], and the population of a horizon. *)
Definition value (tp : Momentum.time_period) (r : Momentum.hqm_row) : Q :=
  default 0%Q (Momentum.change_col tp r).

Definition column (tp : Momentum.time_period) (hqm_df : list Momentum.hqm_row)
  : list Q :=
  map (value tp) hqm_df.

(** Every return of the row is a number. *)
Definition complete (r : Momentum.hqm_row) : Prop :=
  forall tp, Momentum.change_col tp r = Some (value tp r).


(** What the percentile loop stores for a value [v] of a population [a]:
    the [rank] percentile over 100. *)
Definition stored_percentile (a : list Q) (v : Q) : Q :=
  (Scipy.percentileofscore a v Scipy.rank / 100)%Q.

(** The row the percentile loop leaves, in a frame [hqm_df] without missing
    returns. *)
Definition percentile_row (hqm_df : list Momentum.hqm_row)
  (r : Momentum.hqm_row) : Momentum.hqm_row :=
  let p tp := Val (stored_percentile (column tp hqm_df) (value tp r)) in
  Momentum.HqmRow (Momentum.hqm_Ticker r) (Momentum.hqm_Price r)
    (Momentum.hqm_Number_of_Shares_to_Buy r)
    (Momentum.hqm_One_Year_Price_Return r) (p Momentum.One_Year)
    (Momentum.hqm_Six_Month_Price_Return r) (p Momentum.Six_Month)
    (Momentum.hqm_Three_Month_Price_Return r) (p Momentum.Three_Month)
    (Momentum.hqm_One_Month_Price_Return r) (p Momentum.One_Month)
    (Momentum.HQM_Score r).

(** The four returns of a row, the columns the percentile loop reads. *)
Definition returns (r : Momentum.hqm_row)
  : option Q * option Q * option Q * option Q :=
  (Momentum.hqm_One_Year_Price_Return r, Momentum.hqm_Six_Month_Price_Return r,
   Momentum.hqm_Three_Month_Price_Return r, Momentum.hqm_One_Month_Price_Return r).

Definition return_of (tp : Momentum.time_period)
  (v : option Q * option Q * option Q * option Q) : option Q :=
  let '(y, x, m, o) := v in
  match tp with
  | Momentum.One_Year => y
  | Momentum.Six_Month => x
  | Momentum.Three_Month => m
  | Momentum.One_Month => o
  end.

(** One step of the percentile loop on the row it rewrites, reading the
    populations from the four return columns [v] of the frame. *)
Definition percentile_step (v : list (option Q * option Q * option Q * option Q))
  (tp : Momentum.time_period) (r : Momentum.hqm_row) : result Momentum.hqm_row :=
  let* p := Momentum.score (map (return_of tp) v) (Momentum.change_col tp r) in
  Ok (Momentum.set_percentile_col tp (Val (p / 100)%Q) r).




(** A row of [hqm_df] as the fetch loop appends it, at price 10. *)
Definition fetched_row (ticker : string) (y x m o : option Q) : Momentum.hqm_row :=
  Momentum.HqmRow ticker (Some 10%Q) NA y NA x NA m NA o NA NA.

(** The order of a descending sort that puts missing values last. *)
Definition ranks_before (a b : option Q) : Prop :=
  match a, b with
  | Some x, Some y => (y <= x)%Q
  | _, None => True
  | None, Some _ => False
  end.

Definition ranks_before_dec (a b : option Q) : Decision (ranks_before a b) :=
  match a, b with
  | Some x, Some y =>
      match Qlt_le_dec x y with
      | left H => right (Qlt_not_le x y H)
      | right H => left H
      end
  | Some _, None => left I
  | None, None => left I
  | None, Some _ => right (fun H => H)
  end.

Definition descending_na_last {X} (key : X -> option Q) (l : list X) : Prop :=
  StronglySorted (fun x y => ranks_before (key x) (key y)) l.

(** That order on the labelled rows of a frame. *)
Definition label_order {R} (key : R -> option Q) (x y : nat * R) : Prop :=
  ranks_before (key (snd x)) (key (snd y)).

Definition label_order_dec {R} (key : R -> option Q) (x y : nat * R)
  : Decision (label_order key x y) :=
  ranks_before_dec (key (snd x)) (key (snd y)).

(** A ticker without a comma. *)
Fixpoint comma_free (s : string) : bool :=
  match s with
  | EmptyString => true
  | String c s' => negb (Ascii.eqb c ","%char) && comma_free s'
  end.

(** One iteration of the share loops of the second script, on the row it
    rewrites. *)
Definition quotient_of (position_size : Q) (x : nat * Momentum.row)
  : result (nat * Momentum.row) :=
  let* p := number (Momentum.Price (snd x)) in
  let* q := truediv position_size p in
  Ok (fst x,
      Momentum.Row (Momentum.Ticker (snd x)) (Momentum.Price (snd x))
        (Momentum.One_Year_Price_Return (snd x)) (Val q)).

Definition hqm_quotient_of (position_size : Q) (r : Momentum.hqm_row)
  : result Momentum.hqm_row :=
  let* p := number (Momentum.hqm_Price r) in
  let* q := truediv position_size p in
  Ok (Momentum.set_hqm_shares (Val q) r).

(** The sum of the prices of a frame of the first script. *)
Definition total_price (final_df : list EqualWeight.row) : Q :=
  fold_right (fun r acc => (default 0%Q (EqualWeight.Stock_Price r) + acc)%Q)
             0%Q final_df.

(** One iteration of the binary64 share loop of the first script, on the
    row it rewrites. *)
Definition shares_of_binary64 (position_size : Binary64.float)
  (r : EqualWeight.row) : result EqualWeight.row :=
  let* shares :=
    Binary64.floor
      (Binary64.truediv position_size
         (Binary64.cell (EqualWeight.Stock_Price r))) in
  Ok (EqualWeight.Row (EqualWeight.Ticker r) (EqualWeight.Stock_Price r)
        (EqualWeight.Market_Capitalization r) (Val shares)).

(** A row [r'] that differs from [r] in its share count only, which costs
    the position size [ps] to within the price of one share and the
    rounding of one division. *)
Definition bought_binary64 (ps : Q) (r r' : EqualWeight.row) : Prop :=
  EqualWeight.Ticker r' = EqualWeight.Ticker r /\
  EqualWeight.Stock_Price r' = EqualWeight.Stock_Price r /\
  EqualWeight.Market_Capitalization r' = EqualWeight.Market_Capitalization r /\
  (ps * (1 - Binary64.unit_roundoff)
   - default 0 (EqualWeight.Stock_Price r) < cost r')%Q /\
  (cost r' <= ps * (1 + Binary64.unit_roundoff))%Q.

(** How a run ends.  Neither script has a [raise] statement, a [try]
    around an allocation or a test of the row count, so an error of a run
    is always an exception that the interpreter or a library raised and
    that nothing catches: the run stops there with the traceback.
    [Reported] is what a guarded program gives instead, an error of its own
    with its name and a message. *)
Inductive ending : Type :=
| Finished
| Uncaught (e : exn)
| Reported (error message : string).

Definition ending_of {A} (r : result A) : ending :=
  match r with
  | Ok _ => Finished
  | Raise e => Uncaught e
  end.


(** The order of the row labels, to compare two arrangements of the same
    labelled rows. *)
Definition by_label {R} (x y : nat * R) : Prop := (fst x <= fst y)%nat.

Definition by_label_dec {R} (x y : nat * R) : Decision (by_label x y) :=
  le_dec (fst x) (fst y).

(** * Properties *)

(** ** The result monad and index loops *)

Lemma range_0_step len n :
  (0 < n)%nat ->
  range 0 len n = Ok (map (fun k => k * n)%nat (seq 0 (range_length 0 len n))).
Proof.
  intros Hn. unfold range. destruct (Nat.eqb_spec n 0) as [->|_]; [lia|].
  reflexivity.
Qed.

(** [range(0, n)] counts [0 .. n-1]. *)
Lemma range_0_1 n : range 0 n 1 = Ok (seq 0 n).
Proof.
  rewrite range_0_step by lia. f_equal.
  unfold range_length. rewrite Nat.sub_0_r, Nat.add_sub, Nat.div_1_r.
  rewrite <- (map_id (seq 0 n)) at 2. apply map_ext. intros k. lia.
Qed.

(** A loop over the row labels that rewrites row [i] from row [i] and from
    columns [proj] that no iteration changes is a row-by-row traversal. *)
Section IndexLoop.
Context {R P : Type}.
Variable proj : R -> P.
Variable F : list P -> R -> result R.
Variable body : nat -> list R -> result (list R).
Hypothesis body_row : forall d i r,
  d !! i = Some r ->
  body i d = let* r' := F (map proj d) r in Ok (<[i := r']> d).
Hypothesis F_proj : forall v r r', F v r = Ok r' -> proj r' = proj r.

Lemma index_loop_from suf : forall pre,
  for_each body (seq (length pre) (length suf)) (pre ++ suf) =
  let* suf' := traverse (F (map proj (pre ++ suf))) suf in Ok (pre ++ suf').
Proof.
  induction suf as [|r suf IH]; intros pre.
  - reflexivity.
  - cbn [length seq for_each traverse].
    rewrite (body_row (pre ++ r :: suf) (length pre) r)
      by (rewrite lookup_app_r, Nat.sub_diag by lia; reflexivity).
    destruct (F (map proj (pre ++ r :: suf)) r) as [r'|e] eqn:E; cbn [bind];
      [|reflexivity].
    replace (<[length pre := r']> (pre ++ r :: suf)) with ((pre ++ [r']) ++ suf).
    2:{ rewrite insert_app_r_alt, Nat.sub_diag by lia. cbn.
        rewrite <- app_assoc. reflexivity. }
    specialize (IH (pre ++ [r'])).
    rewrite length_app, Nat.add_1_r in IH. rewrite IH. clear IH.
    replace (map proj ((pre ++ [r']) ++ suf)) with (map proj (pre ++ r :: suf)).
    2:{ rewrite <- app_assoc, !map_app. cbn. rewrite (F_proj _ _ _ E).
        reflexivity. }
    destruct (traverse _ suf) as [suf'|e]; cbn [bind]; [|reflexivity].
    rewrite <- app_assoc. reflexivity.
Qed.

Lemma index_loop df :
  for_each body (seq 0 (length df)) df = traverse (F (map proj df)) df.
Proof.
  pose proof (index_loop_from df []) as H. cbn [app length] in H. rewrite H.
  destruct (traverse _ df); reflexivity.
Qed.

(** The inner loop of a nested one: the same row rewritten once per item. *)
Lemma same_row_loop {T} (g : list P -> T -> R -> result R)
    (cell : T -> list R -> result (list R)) (i : nat) :
  (forall t d r, d !! i = Some r ->
     cell t d = let* r' := g (map proj d) t r in Ok (<[i := r']> d)) ->
  (forall v t r r', g v t r = Ok r' -> proj r' = proj r) ->
  forall ts d r, d !! i = Some r ->
    for_each cell ts d =
    let* r' := for_each (g (map proj d)) ts r in Ok (<[i := r']> d).
Proof.
  intros Hcell Hg ts. induction ts as [|t ts IH]; intros d r Hr.
  - cbn. rewrite list_insert_id by assumption. reflexivity.
  - cbn [for_each]. rewrite (Hcell t d r Hr).
    destruct (g (map proj d) t r) as [r1|e] eqn:E; cbn [bind]; [|reflexivity].
    assert (Hlt : (i < length d)%nat) by (eapply lookup_lt_Some; eassumption).
    rewrite (IH (<[i := r1]> d) r1) by (apply list_lookup_insert_eq; assumption).
    replace (map proj (<[i := r1]> d)) with (map proj d).
    2:{ change (map proj) with (@fmap list _ _ _ proj).
        rewrite list_fmap_insert, (Hg _ _ _ _ E).
        symmetry. apply list_insert_id. rewrite list_lookup_fmap, Hr.
        reflexivity. }
    destruct (for_each _ ts r1); cbn [bind]; [|reflexivity].
    rewrite list_insert_insert_eq. reflexivity.
Qed.

End IndexLoop.

(** A traversal whose step never raises is a [map]. *)
Lemma traverse_map {X Y} (F : X -> result Y) (f : X -> Y) (xs : list X) :
  Forall (fun x => F x = Ok (f x)) xs -> traverse F xs = Ok (map f xs).
Proof.
  induction 1 as [|x xs Hx _ IH]; [reflexivity|].
  cbn. rewrite Hx, IH. reflexivity.
Qed.

Lemma traverse_ok_length {X Y} (F : X -> result Y) (xs : list X) ys :
  traverse F xs = Ok ys -> length ys = length xs.
Proof.
  revert ys. induction xs as [|x xs IH]; intros ys; cbn.
  - intros [= <-]. reflexivity.
  - destruct (F x); cbn; [|discriminate].
    destruct (traverse F xs); cbn; [|discriminate].
    intros [= <-]. cbn. f_equal. apply IH. reflexivity.
Qed.

Lemma traverse_ok_lookup {X Y} (F : X -> result Y) (xs : list X) ys i x :
  traverse F xs = Ok ys -> xs !! i = Some x ->
  exists y, ys !! i = Some y /\ F x = Ok y.
Proof.
  revert ys i. induction xs as [|x0 xs IH]; intros ys i; cbn.
  - intros _ Hx. discriminate.
  - destruct (F x0) as [y0|] eqn:E0; cbn; [|discriminate].
    destruct (traverse F xs) as [ys'|]; cbn; [|discriminate].
    intros [= <-]. destruct i as [|i]; cbn.
    + intros [= <-]. eauto.
    + intros Hx. apply (IH ys' i); [reflexivity|assumption].
Qed.

(** ** Numbers *)

Section Numbers.
Local Open Scope Q_scope.

Lemma of_nat_succ n : of_nat (S n) == of_nat n + 1.
Proof.
  unfold of_nat. rewrite Nat2Z.inj_succ, <- Z.add_1_r, inject_Z_plus.
  reflexivity.
Qed.

Lemma of_nat_add n m : of_nat (n + m) == of_nat n + of_nat m.
Proof.
  unfold of_nat. rewrite Nat2Z.inj_add, inject_Z_plus. reflexivity.
Qed.

Lemma of_nat_le n m : (n <= m)%nat -> of_nat n <= of_nat m.
Proof. intros H. unfold of_nat. rewrite <- Zle_Qle. lia. Qed.

Lemma of_nat_lt n m : (n < m)%nat -> of_nat n < of_nat m.
Proof. intros H. unfold of_nat. rewrite <- Zlt_Qlt. lia. Qed.

Lemma of_nat_positive n : (0 < n)%nat -> 0 < of_nat n.
Proof. intros H. apply (of_nat_lt 0 n H). Qed.

Lemma truediv_of_nat val n :
  (0 < n)%nat -> truediv val (of_nat n) = Ok (val / of_nat n).
Proof.
  intros Hn. unfold truediv.
  destruct (Qeq_bool (of_nat n) 0) eqn:E; [|reflexivity].
  apply Qeq_bool_eq in E. pose proof (of_nat_positive n Hn) as Hp.
  rewrite E in Hp. exfalso. revert Hp. apply Qlt_irrefl.
Qed.

Lemma truediv_pos x p : 0 < p -> truediv x p = Ok (x / p).
Proof.
  intros Hp. unfold truediv. destruct (Qeq_bool p 0) eqn:E; [|reflexivity].
  apply Qeq_bool_eq in E. rewrite E in Hp. exfalso. revert Hp.
  apply Qlt_irrefl.
Qed.

End Numbers.

(** ** Binary64 rounding *)

Section Rounding.
Import Binary64.
Local Open Scope Q_scope.

Lemma pow2_pos e : 0 < pow2 e.
Proof. apply Qpower_0_lt. reflexivity. Qed.

Lemma pow2_add a b : pow2 (a + b) == pow2 a * pow2 b.
Proof. apply Qpower_plus. discriminate. Qed.

Lemma pow2_le a b : (a <= b)%Z -> pow2 a <= pow2 b.
Proof. intros H. apply Qpower_le_compat_l; [assumption|discriminate]. Qed.

Lemma pow2_lt_inv a b : pow2 a < pow2 b -> (a < b)%Z.
Proof. intros H. apply (Qpower_lt_compat_l_inv 2); [assumption|reflexivity]. Qed.

Lemma pow2_Z k : (0 <= k)%Z -> pow2 k == inject_Z (2 ^ k).
Proof. intros H. symmetry. apply (Zpower_Qpower 2 k H). Qed.

(** The nearest integer is within one half. *)
Lemma nearest_even_upper y : inject_Z (nearest_even y) <= y + (1 # 2).
Proof.
  unfold nearest_even. pose proof (Qfloor_le y) as Hf.
  destruct (Qcompare_spec (y - inject_Z (Qfloor y)) (1 # 2)) as [E|L|G].
  - destruct (Z.even (Qfloor y)).
    + apply Qle_trans with y; [assumption|].
      rewrite <- (Qplus_0_r y) at 1. apply Qplus_le_r. discriminate.
    + rewrite inject_Z_plus. apply Qle_lteq. right.
      assert (E' : inject_Z (Qfloor y) == y - (1 # 2)).
      { rewrite <- E. ring. }
      rewrite E'. change (inject_Z 1) with 1. ring.
  - apply Qle_trans with y; [assumption|].
    rewrite <- (Qplus_0_r y) at 1. apply Qplus_le_r. discriminate.
  - rewrite inject_Z_plus. change (inject_Z 1) with 1.
    apply Qlt_le_weak.
    apply (Qplus_lt_l _ _ (inject_Z (Qfloor y) + (1 # 2))) in G.
    assert (E1 : (1 # 2) + (inject_Z (Qfloor y) + (1 # 2)) == inject_Z (Qfloor y) + 1) by ring.
    assert (E2 : y - inject_Z (Qfloor y) + (inject_Z (Qfloor y) + (1 # 2)) == y + (1 # 2)) by ring.
    rewrite E1, E2 in G. exact G.
Qed.

Lemma nearest_even_lower y : y - (1 # 2) <= inject_Z (nearest_even y).
Proof.
  unfold nearest_even. pose proof (Qlt_floor y) as Hf.
  rewrite inject_Z_plus in Hf. change (inject_Z 1) with 1 in Hf.
  destruct (Qcompare_spec (y - inject_Z (Qfloor y)) (1 # 2)) as [E|L|G].
  - assert (E' : y - (1 # 2) == inject_Z (Qfloor y)).
    { rewrite <- E. ring. }
    destruct (Z.even (Qfloor y)).
    + rewrite E'. apply Qle_refl.
    + rewrite E', inject_Z_plus. change (inject_Z 1) with 1.
      rewrite <- (Qplus_0_r (inject_Z (Qfloor y))) at 1.
      apply Qplus_le_r. discriminate.
  - apply Qlt_le_weak.
    apply (Qplus_lt_l _ _ (inject_Z (Qfloor y) - (1 # 2))) in L.
    assert (E1 : y - inject_Z (Qfloor y) + (inject_Z (Qfloor y) - (1 # 2)) == y - (1 # 2)) by ring.
    assert (E2 : (1 # 2) + (inject_Z (Qfloor y) - (1 # 2)) == inject_Z (Qfloor y)) by ring.
    rewrite E1, E2 in L. exact L.
  - rewrite inject_Z_plus. change (inject_Z 1) with 1.
    apply Qlt_le_weak.
    apply (Qplus_lt_l _ _ (- (1 # 2))) in Hf.
    assert (E1 : inject_Z (Qfloor y) + 1 + - (1 # 2) == inject_Z (Qfloor y) + (1 # 2)) by ring.
    rewrite E1 in Hf.
    apply Qlt_trans with (inject_Z (Qfloor y) + (1 # 2)); [exact Hf|].
    apply Qplus_lt_r. reflexivity.
Qed.

Lemma nearest_even_nonneg y : 0 <= y -> (0 <= nearest_even y)%Z.
Proof.
  intros Hy. unfold nearest_even.
  assert (Hf : (0 <= Qfloor y)%Z).
  { change 0%Z with (Qfloor 0). apply Qfloor_resp_le. assumption. }
  destruct (Qcompare _ _); [destruct (Z.even _)| |]; lia.
Qed.

(** The nearest integer does not pass a whole number. *)
Lemma nearest_even_below y k : y <= inject_Z k -> (nearest_even y <= k)%Z.
Proof.
  intros Hy. unfold nearest_even.
  assert (Hf : (Qfloor y <= k)%Z).
  { rewrite <- (Qfloor_Z k). apply Qfloor_resp_le. assumption. }
  assert (Hlt : y - inject_Z (Qfloor y) == 0 \/ (Qfloor y < k)%Z).
  { destruct (Z.eq_dec (Qfloor y) k) as [E|N]; [left|right; lia].
    apply Qle_antisym.
    - rewrite E. apply (Qplus_le_l _ _ (inject_Z k)).
      assert (E1 : y - inject_Z k + inject_Z k == y) by ring.
      rewrite E1, Qplus_0_l. assumption.
    - apply (Qplus_le_l _ _ (inject_Z (Qfloor y))).
      assert (E1 : y - inject_Z (Qfloor y) + inject_Z (Qfloor y) == y) by ring.
      rewrite E1, Qplus_0_l. apply Qfloor_le. }
  destruct Hlt as [Hz|Hlt].
  - rewrite Hz. cbn. assumption.
  - destruct (Qcompare _ _); [destruct (Z.even _)| |]; lia.
Qed.


Lemma pow2_log2 n : (0 < n)%Z ->
  pow2 (Z.log2 n) <= inject_Z n /\ inject_Z n < pow2 (Z.log2 n + 1).
Proof.
  intros Hn. pose proof (Z.log2_spec n Hn) as [Hl Hu].
  pose proof (Z.log2_nonneg n) as H0.
  rewrite !pow2_Z by lia. rewrite <- Zle_Qle, <- Zlt_Qlt.
  split; [assumption|]. rewrite Z.add_1_r. assumption.
Qed.

(** The binary logarithm of a positive rational, within one. *)
Lemma log2_bounds x :
  0 < x ->
  pow2 (Z.log2 (Z.abs (Qnum x)) - Z.log2 (Zpos (Qden x)) - 1) <= x /\
  x < pow2 (Z.log2 (Z.abs (Qnum x)) - Z.log2 (Zpos (Qden x)) + 1).
Proof.
  destruct x as [a b]. intros Hx. cbn [Qnum Qden].
  assert (Ha : (0 < a)%Z).
  { unfold Qlt in Hx. cbn in Hx. lia. }
  rewrite Z.abs_eq by lia.
  destruct (pow2_log2 a Ha) as [Hal Hau].
  destruct (pow2_log2 (Zpos b) eq_refl) as [Hbl Hbu].
  set (la := Z.log2 a) in *. set (lb := Z.log2 (Zpos b)) in *.
  assert (Hb : 0 < inject_Z (Zpos b)) by reflexivity.
  rewrite (Qmake_Qdiv a b). split.
  - apply Qle_shift_div_l; [assumption|].
    apply Qle_trans with (pow2 (la - lb - 1) * pow2 (lb + 1)).
    + apply Qmult_le_l; [apply pow2_pos|]. apply Qlt_le_weak. assumption.
    + rewrite <- pow2_add.
      replace (la - lb - 1 + (lb + 1))%Z with la by lia. assumption.
  - apply Qlt_shift_div_r; [assumption|].
    apply Qlt_le_trans with (pow2 (la + 1)); [assumption|].
    replace (la + 1)%Z with (la - lb + 1 + lb)%Z by lia.
    rewrite pow2_add. apply Qmult_le_l; [apply pow2_pos|]. assumption.
Qed.

(** The exponent of a positive number: the one that leaves 53 bits, unless
    that is below the smallest place. *)
Lemma exponent_spec x :
  0 < x ->
  exists e,
    exponent x = Z.max e (-1074) /\ pow2 (e + 52) <= x /\ x < pow2 (e + 53).
Proof.
  intros Hx. destruct (log2_bounds x Hx) as [Hl Hu]. unfold exponent.
  set (L := (Z.log2 (Z.abs (Qnum x)) - Z.log2 (Zpos (Qden x)))%Z) in *.
  pose proof (Qabs_pos x (Qlt_le_weak _ _ Hx)) as Habs.
  replace (L - 53 + 53)%Z with L by lia.
  destruct (Qle_bool (pow2 L) (Qabs x)) eqn:E.
  - exists (L - 53 + 1)%Z. split; [reflexivity|].
    apply Qle_bool_iff in E. rewrite Habs in E.
    replace (L - 53 + 1 + 52)%Z with L by lia.
    replace (L - 53 + 1 + 53)%Z with (L + 1)%Z by lia. split; assumption.
  - exists (L - 53)%Z. split; [reflexivity|].
    replace (L - 53 + 52)%Z with (L - 1)%Z by lia.
    replace (L - 53 + 53)%Z with L by lia. split; [assumption|].
    apply Qnot_le_lt. intros H. rewrite <- Habs in H.
    apply Qle_bool_iff in H. congruence.
Qed.

Lemma round_nonneg x : 0 <= x -> 0 <= round x.
Proof.
  intros Hx. unfold round. apply Qmult_le_0_compat.
  - change 0 with (inject_Z 0). rewrite <- Zle_Qle.
    apply nearest_even_nonneg. apply Qle_shift_div_l; [apply pow2_pos|].
    rewrite Qmult_0_l. assumption.
  - apply Qlt_le_weak, pow2_pos.
Qed.

(** In the normal range rounding moves a number by at most the unit
    roundoff, relatively. *)
Lemma round_normal x :
  min_normal <= x ->
  x * (1 - unit_roundoff) <= round x /\ round x <= x * (1 + unit_roundoff).
Proof.
  intros Hn.
  assert (Hx : 0 < x).
  { apply Qlt_le_trans with min_normal; [apply pow2_pos|assumption]. }
  destruct (exponent_spec x Hx) as (e & He & Hl & Hu).
  assert (Hrange : (-1074 <= e)%Z).
  { assert (H : (-1022 < e + 53)%Z).
    { apply pow2_lt_inv. apply Qle_lt_trans with x; assumption. }
    lia. }
  unfold round. rewrite He, Z.max_l by lia.
  pose proof (pow2_pos e) as Hp.
  set (y := x / pow2 e).
  assert (Ey : x == y * pow2 e).
  { unfold y. field. intros E. rewrite E in Hp. revert Hp. apply Qlt_irrefl. }
  assert (Hhalf : (1 # 2) * pow2 e <= x * unit_roundoff).
  { unfold unit_roundoff.
    apply Qle_trans with (pow2 (e + 52) * pow2 (-53)).
    - rewrite <- pow2_add. replace (e + 52 + -53)%Z with (e + -1)%Z by lia.
      rewrite pow2_add. rewrite Qmult_comm. apply Qle_refl.
    - apply Qmult_le_compat_r; [assumption|]. apply Qlt_le_weak, pow2_pos. }
  split.
  - apply Qle_trans with ((y - (1 # 2)) * pow2 e).
    + assert (E : (y - (1 # 2)) * pow2 e == x - (1 # 2) * pow2 e).
      { rewrite Ey. ring. }
      rewrite E.
      assert (E' : x * (1 - unit_roundoff) == x - x * unit_roundoff) by ring.
      rewrite E'. apply Qplus_le_r. apply Qopp_le_compat. assumption.
    + apply Qmult_le_compat_r; [apply nearest_even_lower|].
      apply Qlt_le_weak. assumption.
  - apply Qle_trans with ((y + (1 # 2)) * pow2 e).
    + apply Qmult_le_compat_r; [apply nearest_even_upper|].
      apply Qlt_le_weak. assumption.
    + assert (E : (y + (1 # 2)) * pow2 e == x + (1 # 2) * pow2 e).
      { rewrite Ey. ring. }
      rewrite E.
      assert (E' : x * (1 + unit_roundoff) == x + x * unit_roundoff) by ring.
      rewrite E'. apply Qplus_le_r. assumption.
Qed.

(** Below the normal range a non-negative number rounds to less than 1. *)
Lemma round_subnormal x :
  0 <= x -> x < min_normal -> Qfloor (round x) = 0%Z.
Proof.
  intros H0 Hs.
  assert (Hr : round x <= min_normal).
  { apply Qle_lteq in H0 as [Hx|Hx].
    - destruct (exponent_spec x Hx) as (e & He & Hl & Hu).
      assert (Hrange : (e < -1074)%Z).
      { assert (H : (e + 52 < -1022)%Z).
        { apply pow2_lt_inv. apply Qle_lt_trans with x; assumption. }
        lia. }
      unfold round. rewrite He, Z.max_r by lia.
      apply Qle_trans with (inject_Z (2 ^ 52) * pow2 (-1074)).
      + apply Qmult_le_compat_r; [|apply Qlt_le_weak, pow2_pos].
        rewrite <- Zle_Qle. apply nearest_even_below.
        apply Qle_shift_div_r; [apply pow2_pos|].
        rewrite <- pow2_Z by lia. rewrite <- pow2_add.
        apply Qlt_le_weak. exact Hs.
      + rewrite <- pow2_Z by lia. rewrite <- pow2_add. apply Qle_refl.
    - unfold round.
      assert (Ez : x / pow2 (exponent x) == 0).
      { generalize (pow2 (exponent x)). intros c. rewrite <- Hx.
        unfold Qdiv. apply Qmult_0_l. }
      assert (E : nearest_even (x / pow2 (exponent x)) = 0%Z).
      { apply Z.le_antisymm.
        - apply nearest_even_below. rewrite Ez. apply Qle_refl.
        - apply nearest_even_nonneg. rewrite Ez. apply Qle_refl. }
      rewrite E. rewrite Qmult_0_l. apply Qlt_le_weak, pow2_pos. }
  pose proof (round_nonneg x H0) as Hr0.
  apply Z.le_antisymm.
  - apply Z.lt_succ_r. rewrite Zlt_Qlt.
    apply Qle_lt_trans with (round x); [apply Qfloor_le|].
    apply Qle_lt_trans with min_normal; [assumption|]. reflexivity.
  - change 0%Z with (Qfloor 0). apply Qfloor_resp_le. assumption.
Qed.

End Rounding.

(** The floats nearest to 1/3 and to 1/10; a tie between two neighbours,
    which goes to the even one, above [2^53] and in the last place of the
    range; and a quotient that rounding takes below a whole number:
    43.750000000000163 over five rows priced 1.2500000000000047 gives
    6.999999999999999 in binary64 and 7 in exact arithmetic. *)
Example round_one_third :
  (Binary64.round (1 # 3) == 6004799503160661 # 18014398509481984)%Q.
Proof. vm_compute. reflexivity. Qed.

Example round_one_tenth :
  (Binary64.round (1 # 10) == 3602879701896397 # 36028797018963968)%Q.
Proof. vm_compute. reflexivity. Qed.

Example round_ties_to_even :
  (Binary64.round (inject_Z (2 ^ 53 + 1)) == inject_Z (2 ^ 53))%Q /\
  (Binary64.round (inject_Z (2 ^ 53 + 3)) == inject_Z (2 ^ 53 + 4))%Q /\
  (Binary64.round (3 * Binary64.pow2 (-1075)) == Binary64.pow2 (-1073))%Q.
Proof. repeat split; vm_compute; reflexivity. Qed.

Example rounded_quotient_below_a_whole_number :
  let val := (6157265115545623 # 140737488355328)%Q in
  let price := (5629499534213141 # 4503599627370496)%Q in
  (Binary64.round val == val)%Q /\ (Binary64.round price == price)%Q /\
  Qfloor (Binary64.round (Binary64.round (val / 5) / price)) = 6%Z /\
  Qfloor (val / 5 / price) = 7%Z.
Proof. repeat split; vm_compute; reflexivity. Qed.

(** ** Batcher *)

Section Batcher.
Context {A : Type}.
Implicit Types (lst : list A) (n k : nat).

Lemma range_length_cover len n :
  (0 < n)%nat -> (len <= range_length 0 len n * n)%nat.
Proof.
  intros Hn. unfold range_length. rewrite Nat.sub_0_r.
  pose proof (Nat.div_mod_eq (len + n - 1) n) as E.
  pose proof (Nat.mod_upper_bound (len + n - 1) n ltac:(lia)). nia.
Qed.

Lemma range_length_tight len n k :
  (0 < n)%nat -> (S k < range_length 0 len n)%nat -> (S k * n < len)%nat.
Proof.
  intros Hn Hk. unfold range_length in Hk. rewrite Nat.sub_0_r in Hk.
  pose proof (Nat.div_mod_eq (len + n - 1) n) as E.
  pose proof (Nat.mod_upper_bound (len + n - 1) n ltac:(lia)). nia.
Qed.

(** A chunk is cut only where items are left. *)
Lemma range_length_inside len n k :
  (0 < n)%nat -> (k < range_length 0 len n)%nat -> (k * n < len)%nat.
Proof.
  intros Hn Hk. unfold range_length in Hk. rewrite Nat.sub_0_r in Hk.
  pose proof (Nat.div_mod_eq (len + n - 1) n) as E.
  pose proof (Nat.mod_upper_bound (len + n - 1) n ltac:(lia)). nia.
Qed.

(** Cutting [m] pieces of [n] items covers a list of at most [m * n]
    items. *)
Lemma concat_pieces n m : forall lst,
  (length lst <= m * n)%nat ->
  concat (map (fun i => slice lst i (i + n))
              (map (fun k => k * n)%nat (seq 0 m))) = lst.
Proof.
  induction m as [|m IH]; intros lst Hlen.
  - destruct lst; [reflexivity | simpl in Hlen; lia].
  - rewrite <- cons_seq, <- fmap_S_seq.
    change (@fmap list _ nat nat S (seq 0 m)) with (map S (seq 0 m)).
    cbn [map concat]. transitivity (firstn n lst ++ skipn n lst).
    2: apply firstn_skipn.
    f_equal.
    + unfold slice. cbn [Nat.mul Nat.add skipn]. f_equal. lia.
    + rewrite <- (IH (skipn n lst)) at 1.
      2:{ rewrite length_skipn. lia. }
      f_equal. rewrite !map_map. apply map_ext. intros k. unfold slice.
      replace (S k * n + n - S k * n)%nat with n by lia.
      replace (k * n + n - k * n)%nat with n by lia.
      f_equal. rewrite skipn_skipn. f_equal. lia.
Qed.

Lemma chucks_pieces lst n :
  (0 < n)%nat ->
  EqualWeight.chucks lst n =
  Ok (map (fun i => slice lst i (i + n))
          (map (fun k => k * n)%nat (seq 0 (range_length 0 (length lst) n)))).
Proof.
  intros Hn. unfold EqualWeight.chucks. rewrite range_0_step by assumption.
  reflexivity.
Qed.

Lemma chunks_chucks lst n : Momentum.chunks lst n = EqualWeight.chucks lst n.
Proof. reflexivity. Qed.

Lemma pieces_lookup lst n m k c :
  map (fun i => slice lst i (i + n)) (map (fun k => k * n)%nat (seq 0 m)) !! k
    = Some c ->
  (k < m)%nat /\ c = slice lst (k * n) (k * n + n).
Proof.
  rewrite map_map, list_lookup_fmap.
  destruct (seq 0 m !! k) as [j|] eqn:E; [|discriminate].
  apply lookup_seq in E as [-> Hk]. cbn. intros [= <-]. split; [lia|reflexivity].
Qed.

Lemma slice_length lst i j :
  length (slice lst i j) = Nat.min (j - i) (length lst - i).
Proof. unfold slice. rewrite length_firstn, length_skipn. reflexivity. Qed.

(** C4.  For a positive chunk size [n], both scripts' batcher returns
    chunks whose concatenation is the input list in order; every chunk has
    at most [n] items, every chunk but the last exactly [n], none is empty,
    and the empty list gives no chunk at all. *)
Theorem batcher_contiguous_chunks lst n :
  (0 < n)%nat ->
  exists cs,
    EqualWeight.chucks lst n = Ok cs /\
    Momentum.chunks lst n = Ok cs /\
    concat cs = lst /\
    Forall (fun c => (length c <= n)%nat) cs /\
    (forall k c, (S k < length cs)%nat -> cs !! k = Some c -> length c = n) /\
    Forall (fun c => c <> []) cs /\
    (lst = [] -> cs = []).
Proof.
  intros Hn. eexists. split; [apply chucks_pieces; assumption|].
  split; [rewrite chunks_chucks; apply chucks_pieces; assumption|].
  split; [apply concat_pieces, range_length_cover; assumption|].
  split; [|split; [|split]].
  - apply Forall_lookup. intros k c Hk.
    apply pieces_lookup in Hk as [_ ->]. rewrite slice_length. lia.
  - intros k c Hk Hc. rewrite !length_map, length_seq in Hk.
    apply pieces_lookup in Hc as [_ ->]. rewrite slice_length.
    pose proof (range_length_tight (length lst) n k Hn Hk). lia.
  - apply Forall_lookup. intros k c Hk.
    apply pieces_lookup in Hk as [Hk ->]. intros E.
    apply (f_equal length) in E. rewrite slice_length in E. cbn in E.
    pose proof (range_length_inside (length lst) n k Hn Hk). lia.
  - intros ->. cbn [length].
    replace (range_length 0 0 n) with 0%nat; [reflexivity|].
    unfold range_length. symmetry. apply Nat.div_small. lia.
Qed.

End Batcher.

Lemma batcher_contiguous_chunks_witness :
  (0 < 2)%nat /\
  exists cs,
    EqualWeight.chucks ["A"; "AAL"; "AAP"; "AAPL"; "ABBV"]%string 2 = Ok cs /\
    Momentum.chunks ["A"; "AAL"; "AAP"; "AAPL"; "ABBV"]%string 2 = Ok cs /\
    concat cs = ["A"; "AAL"; "AAP"; "AAPL"; "ABBV"]%string /\
    Forall (fun c => (length c <= 2)%nat) cs /\
    (forall k c, (S k < length cs)%nat -> cs !! k = Some c -> length c = 2%nat) /\
    Forall (fun c => c <> []) cs /\
    (["A"; "AAL"; "AAP"; "AAPL"; "ABBV"]%string = [] -> cs = []).
Proof.
  split; [lia|].
  apply (batcher_contiguous_chunks ["A"; "AAL"; "AAP"; "AAPL"; "ABBV"]%string 2).
  lia.
Defined.

(** ** Allocator of the equal-weight script *)

Section EqualWeightAllocator.
Import EqualWeight.
Local Open Scope Q_scope.

Lemma allocate_traverse val final_df :
  final_df <> [] ->
  allocate val final_df =
  traverse (shares_of (val / of_nat (length final_df))) final_df.
Proof.
  intros Hne. unfold allocate.
  rewrite truediv_of_nat by (destruct final_df; [congruence | cbn; lia]).
  cbn [bind]. rewrite range_0_1. cbn [bind].
  apply (index_loop (fun _ : row => tt)
           (fun _ => shares_of (val / of_nat (length final_df)))).
  - intros d i r Hr. unfold shares_step, shares_of. rewrite Hr.
    destruct (number (Stock_Price r)) as [price|]; cbn [bind]; [|reflexivity].
    destruct (truediv _ price); reflexivity.
  - reflexivity.
Qed.

Lemma shares_of_positive ps r p :
  Stock_Price r = Some p -> 0 < p ->
  shares_of ps r =
  Ok (Row (Ticker r) (Stock_Price r) (Market_Capitalization r)
          (Val (Qfloor (ps / p)))).
Proof.
  intros Hr Hp. unfold shares_of. rewrite Hr. cbn [number bind].
  rewrite truediv_pos by assumption. reflexivity.
Qed.

End EqualWeightAllocator.

(** ** Allocator of the equal-weight script in binary64 *)

Section EqualWeightBinary64.
Import EqualWeight Binary64.
Local Open Scope Q_scope.

Lemma allocate_binary64_traverse val final_df :
  final_df <> [] ->
  allocate_binary64 val final_df =
  traverse (shares_of_binary64 (of_Q (val / of_nat (length final_df)))) final_df.
Proof.
  intros Hne. unfold allocate_binary64, truediv_int.
  destruct (Nat.eqb_spec (length final_df) 0) as [E|_].
  { destruct final_df; [congruence|discriminate]. }
  cbn [bind]. rewrite range_0_1. cbn [bind].
  apply (index_loop (fun _ : row => tt)
           (fun _ => shares_of_binary64 (of_Q (val / of_nat (length final_df))))).
  - intros d i r Hr. unfold shares_step_binary64, shares_of_binary64.
    rewrite Hr. destruct (Binary64.floor _); reflexivity.
  - reflexivity.
Qed.

(** A traversal whose steps either raise one given exception or give a
    related item. *)
Lemma traverse_or_raise {X Y} (F : X -> result Y) (e0 : exn)
    (P : X -> Y -> Prop) (l : list X) :
  Forall (fun x => F x = Raise e0 \/ exists y, F x = Ok y /\ P x y) l ->
  traverse F l = Raise e0 \/
  exists out, traverse F l = Ok out /\ Forall2 P l out.
Proof.
  induction 1 as [|x l Hx _ IH]; [right; exists []; split; constructor|].
  cbn [traverse]. destruct Hx as [Hx|(y & Hx & Hy)]; rewrite Hx; cbn [bind].
  - left. reflexivity.
  - destruct IH as [IH|(out & IH & Hall)]; rewrite IH; cbn [bind].
    + left. reflexivity.
    + right. exists (y :: out). split; [reflexivity|].
      constructor; assumption.
Qed.

(** One row of the binary64 share loop: the floor of the rounded
    quotient. *)
Lemma shares_of_binary64_row ps r :
  0 <= ps -> positive_price (Stock_Price r) ->
  shares_of_binary64 (finite ps) r = Raise OverflowError \/
  exists r', shares_of_binary64 (finite ps) r = Ok r' /\ bought_binary64 ps r r'.
Proof.
  intros Hps (p & Hr & Hp). unfold shares_of_binary64. rewrite Hr.
  cbn [cell truediv].
  assert (Hnz : ~ p == 0).
  { intros E. rewrite E in Hp. revert Hp. apply Qlt_irrefl. }
  destruct (Qeq_bool p 0) eqn:E; [apply Qeq_bool_eq in E; contradiction|].
  unfold of_Q. destruct (Qle_bool _ _); cbn [Binary64.floor bind];
    [left; reflexivity|right].
  eexists. split; [reflexivity|]. unfold bought_binary64, cost.
  cbn [Ticker Number_of_Shares_to_Buy Stock_Price Market_Capitalization default].
  rewrite Hr. cbn [default].
  split; [reflexivity|]. split; [reflexivity|]. split; [reflexivity|].
  assert (Hu : 0 <= 1 + unit_roundoff) by discriminate.
  assert (Hd : 0 <= 1 - unit_roundoff) by discriminate.
  assert (Hd1 : 1 - unit_roundoff <= 1) by discriminate.
  assert (Hq : 0 <= ps / p).
  { apply Qle_shift_div_l; [assumption|]. rewrite Qmult_0_l. assumption. }
  assert (Eps : ps == ps / p * p) by (field; assumption).
  destruct (Qlt_le_dec (ps / p) min_normal) as [Hs|Hn].
  - rewrite (round_subnormal _ Hq Hs). rewrite Qmult_0_l. split.
    + apply (Qplus_lt_l _ _ p).
      assert (E1 : ps * (1 - unit_roundoff) - p + p == ps * (1 - unit_roundoff))
        by ring.
      rewrite E1, Qplus_0_l.
      apply Qle_lt_trans with (ps * 1).
      { rewrite (Qmult_comm ps (1 - unit_roundoff)), (Qmult_comm ps 1).
        apply Qmult_le_compat_r; assumption. }
      rewrite Qmult_1_r, Eps.
      apply Qlt_le_trans with (min_normal * p).
      * apply Qmult_lt_compat_r; assumption.
      * rewrite <- (Qmult_1_l p) at 2.
        apply Qmult_le_compat_r; [discriminate|].
        apply Qlt_le_weak. assumption.
    + apply Qmult_le_0_compat; assumption.
  - destruct (round_normal _ Hn) as [Hlow Hup]. split.
    + pose proof (Qlt_floor (round (ps / p))) as Hf.
      rewrite inject_Z_plus in Hf. change (inject_Z 1) with 1 in Hf.
      apply Qle_lt_trans with ((round (ps / p) - 1) * p).
      * assert (E1 : ps * (1 - unit_roundoff) - p
                     == (ps / p * (1 - unit_roundoff) - 1) * p)
          by (field; assumption).
        rewrite E1. apply Qmult_le_compat_r; [|apply Qlt_le_weak; assumption].
        apply Qplus_le_l. assumption.
      * apply Qmult_lt_compat_r; [assumption|].
        apply (Qplus_lt_l _ _ 1).
        assert (E2 : round (ps / p) - 1 + 1 == round (ps / p)) by ring.
        rewrite E2. assumption.
    + apply Qle_trans with (ps / p * (1 + unit_roundoff) * p).
      * apply Qmult_le_compat_r; [|apply Qlt_le_weak; assumption].
        apply Qle_trans with (round (ps / p)); [apply Qfloor_le|assumption].
      * apply Qle_lteq. right. field. assumption.
Qed.

(** The binary64 share loop on a frame with positive prices: the rounded
    position size, then row by row. *)
Lemma allocate_binary64_rows val final_df :
  final_df <> [] ->
  Forall (fun r => positive_price (Stock_Price r)) final_df ->
  min_normal * of_nat (length final_df) <= val ->
  allocate_binary64 val final_df = Raise OverflowError \/
  exists out,
    allocate_binary64 val final_df = Ok out /\
    Forall2 (bought_binary64 (round (val / of_nat (length final_df))))
      final_df out.
Proof.
  intros Hne Hpos Hval. rewrite allocate_binary64_traverse by assumption.
  set (n := length final_df) in *.
  assert (Hn : 0 < of_nat n).
  { apply of_nat_positive. unfold n. destruct final_df; [congruence|cbn; lia]. }
  assert (Hx : min_normal <= val / of_nat n).
  { apply Qle_shift_div_l; assumption. }
  unfold of_Q. destruct (Qle_bool _ _).
  - left. destruct final_df as [|r rows]; [congruence|].
    inversion Hpos as [|? ? (p & Hr & Hp) _]; subst.
    cbn [traverse]. unfold shares_of_binary64 at 1. rewrite Hr. reflexivity.
  - apply traverse_or_raise. eapply Forall_impl; [exact Hpos|].
    intros r Hr. cbn beta. apply shares_of_binary64_row; [|assumption].
    apply round_nonneg. apply Qle_trans with min_normal; [discriminate|].
    assumption.
Qed.

Lemma bought_total_cost ps rows out :
  Forall2 (bought_binary64 ps) rows out ->
  total_cost out <= of_nat (length rows) * (ps * (1 + unit_roundoff)) /\
  (rows <> [] ->
   of_nat (length rows) * (ps * (1 - unit_roundoff)) - total_price rows
   < total_cost out).
Proof.
  induction 1 as [|r r' rows out (_ & Hp & _ & Hlow & Hup) Htail [IHup IHlow]].
  - split; [|congruence]. cbn. unfold of_nat. cbn. rewrite Qmult_0_l.
    apply Qle_refl.
  - cbn [length total_cost total_price fold_right].
    fold (total_cost out). fold (total_price rows). rewrite of_nat_succ.
    split.
    + assert (E : (of_nat (length rows) + 1) * (ps * (1 + unit_roundoff))
                  == ps * (1 + unit_roundoff)
                     + of_nat (length rows) * (ps * (1 + unit_roundoff)))
        by ring.
      rewrite E. apply Qplus_le_compat; assumption.
    + intros _.
      assert (E : (of_nat (length rows) + 1) * (ps * (1 - unit_roundoff))
                  - (default 0 (Stock_Price r) + total_price rows)
                  == (ps * (1 - unit_roundoff) - default 0 (Stock_Price r))
                     + (of_nat (length rows) * (ps * (1 - unit_roundoff))
                        - total_price rows)) by ring.
      rewrite E. apply Qplus_lt_le_compat; [assumption|].
      destruct rows as [|r0 rows0].
      * inversion Htail; subst. cbn. unfold of_nat. cbn.
        rewrite Qmult_0_l. discriminate.
      * apply Qlt_le_weak, IHlow. discriminate.
Qed.

Lemma bought_columns ps rows out :
  Forall2 (bought_binary64 ps) rows out ->
  map Ticker out = map Ticker rows /\
  map Stock_Price out = map Stock_Price rows /\
  map Market_Capitalization out = map Market_Capitalization rows.
Proof.
  induction 1 as [|r r' rows out (Ht & Hp & Hm & _) _ (IHt & IHp & IHm)];
    [repeat split|].
  cbn. rewrite Ht, Hp, Hm, IHt, IHp, IHm. repeat split.
Qed.

(** C8 (as the code has it).  With positive prices and a portfolio value
    of at least [2^-1022] per row, so that the position size is in the
    normal range of binary64, the allocation of the equal-weight script
    either stops with [OverflowError], a quotient being beyond the range
    of the floats, or returns share counts whose total cost is at most the
    portfolio value times [(1 + 2^-53)^2]: the floor is taken of a quotient
    that two divisions have rounded, so the total can pass the portfolio
    value, by the rounding of those two divisions and no more. *)
Theorem equal_weight_overspends_by_rounding_only (val : Q)
    (final_df : list row) :
  final_df <> [] ->
  Forall (fun r => positive_price (Stock_Price r)) final_df ->
  min_normal * of_nat (length final_df) <= val ->
  allocate_binary64 val final_df = Raise OverflowError \/
  exists out,
    allocate_binary64 val final_df = Ok out /\
    total_cost out <= val * (1 + unit_roundoff) * (1 + unit_roundoff).
Proof.
  intros Hne Hpos Hval.
  destruct (allocate_binary64_rows val final_df Hne Hpos Hval)
    as [Hraise|(out & Hrun & Hrows)]; [left; assumption|right].
  exists out. split; [assumption|].
  set (n := length final_df) in *.
  assert (Hn : 0 < of_nat n).
  { apply of_nat_positive. unfold n. destruct final_df; [congruence|cbn; lia]. }
  assert (Hx : min_normal <= val / of_nat n).
  { apply Qle_shift_div_l; assumption. }
  destruct (round_normal _ Hx) as [_ Hup].
  assert (Hu : 0 <= 1 + unit_roundoff) by discriminate.
  eapply Qle_trans; [apply (proj1 (bought_total_cost _ _ _ Hrows))|]. fold n.
  apply Qle_trans
    with (of_nat n * (val / of_nat n * (1 + unit_roundoff)
                      * (1 + unit_roundoff))).
  - apply Qmult_le_l; [assumption|].
    apply Qmult_le_compat_r; assumption.
  - apply Qle_lteq. right. field. intros E. rewrite E in Hn.
    revert Hn. apply Qlt_irrefl.
Qed.

End EqualWeightBinary64.

Lemma equal_weight_overspends_by_rounding_only_witness :
  let final_df :=
    [EqualWeight.Row "A" (Some 3%Q) (Some 1000%Q) NA;
     EqualWeight.Row "AAL" (Some 7%Q) None NA] in
  (final_df <> [] /\
   Forall (fun r => positive_price (EqualWeight.Stock_Price r)) final_df /\
   (Binary64.min_normal * of_nat (length final_df) <= 100)%Q) /\
  (EqualWeight.allocate_binary64 100%Q final_df = Raise OverflowError \/
   exists out,
     EqualWeight.allocate_binary64 100%Q final_df = Ok out /\
     (total_cost out
      <= 100 * (1 + Binary64.unit_roundoff) * (1 + Binary64.unit_roundoff))%Q).
Proof.
  intros final_df.
  assert (Hne : final_df <> []) by discriminate.
  assert (Hpos : Forall (fun r => positive_price (EqualWeight.Stock_Price r))
                   final_df).
  { repeat constructor; eexists; (split; [reflexivity|reflexivity]). }
  assert (Hval : (Binary64.min_normal * of_nat (length final_df) <= 100)%Q)
    by (vm_compute; discriminate).
  split; [split; [exact Hne|split; [exact Hpos|exact Hval]]|].
  apply (equal_weight_overspends_by_rounding_only 100%Q final_df Hne Hpos Hval).
Defined.

(** C8 as the spec words it fails in binary64.  The portfolio value
    0.9999999999999999 and three rows priced 0.3333333333333333 are floats;
    the position size [val/3] rounds to the price, each quotient is 1.0 and
    each row gets one share, which together cost three times the price,
    more than the portfolio value.  In exact arithmetic the quotient is
    below 1 and no share is bought. *)
Lemma rounded_quotient_overspends :
  let val := (9007199254740991 # 9007199254740992)%Q in
  let p := (6004799503160661 # 18014398509481984)%Q in
  let final_df :=
    [EqualWeight.Row "A" (Some p) None NA;
     EqualWeight.Row "AAL" (Some p) None NA;
     EqualWeight.Row "AAP" (Some p) None NA] in
  (Binary64.round val == val)%Q /\ (Binary64.round p == p)%Q /\
  (exists ps q,
     Binary64.truediv_int val 3 = Ok (Binary64.finite ps) /\
     (ps == p)%Q /\
     Binary64.truediv (Binary64.finite ps) (Binary64.finite p)
     = Binary64.finite q /\
     (q == 1)%Q) /\
  (exists out,
     EqualWeight.allocate_binary64 val final_df = Ok out /\
     map EqualWeight.Number_of_Shares_to_Buy out
     = [Val 1%Z; Val 1%Z; Val 1%Z] /\
     (total_cost out == 3 * p)%Q /\
     (val < total_cost out)%Q) /\
  (exists out,
     EqualWeight.allocate val final_df = Ok out /\
     map EqualWeight.Number_of_Shares_to_Buy out
     = [Val 0%Z; Val 0%Z; Val 0%Z]).
Proof.
  intros val p final_df.
  split; [vm_compute; reflexivity|]. split; [vm_compute; reflexivity|].
  split; [|split].
  - eexists _, _. split; [vm_compute; reflexivity|].
    split; [vm_compute; reflexivity|].
    split; [vm_compute; reflexivity|]. vm_compute. reflexivity.
  - eexists. split; [vm_compute; reflexivity|].
    split; [reflexivity|]. split; vm_compute; reflexivity.
  - eexists. split; [vm_compute; reflexivity|]. reflexivity.
Qed.

(** ** Row collection: the symbols of a batch *)

Lemma split_comma_free s : comma_free s = true -> split "," s = [s].
Proof.
  induction s as [|c s IH]; [reflexivity|]. cbn [comma_free split].
  intros H. apply andb_true_iff in H as [Hc Hs].
  apply negb_true_iff in Hc. rewrite Hc, (IH Hs). reflexivity.
Qed.

Lemma split_app_comma s rest :
  comma_free s = true ->
  split "," (s ++ String "," rest) = s :: split "," rest.
Proof.
  induction s as [|c s IH]; [reflexivity|]. cbn [comma_free].
  intros H. apply andb_true_iff in H as [Hc Hs]. apply negb_true_iff in Hc.
  change (String c s ++ String "," rest)%string
    with (String c (s ++ String "," rest)).
  cbn [split]. rewrite Hc, (IH Hs). reflexivity.
Qed.

(** Splitting the symbol string of a group gives the group back. *)
Lemma split_join group :
  group <> [] -> Forall (fun s => comma_free s = true) group ->
  split "," (join "," group) = group.
Proof.
  intros Hne Hall. induction Hall as [|s group Hs Hall IH]; [congruence|].
  destruct group as [|s' group].
  - cbn. apply split_comma_free. assumption.
  - change (join "," (s :: s' :: group))
      with (s ++ String "," (join "," (s' :: group)))%string.
    rewrite split_app_comma by assumption. f_equal. apply IH. discriminate.
Qed.

(** ** Row collection: a symbol missing from a batch response *)

Section AppendLoop.
Context {V Rw : Type}.
Variable data : gmap string V.
Variable mk : string -> V -> Rw.
Variable step : string -> list Rw -> result (list Rw).
Hypothesis step_lookup : forall symbol df,
  step symbol df =
  match data !! symbol with
  | None => Raise (KeyError symbol)
  | Some d => Ok (df ++ [mk symbol d])
  end.

Lemma append_present syms : forall df,
  Forall (fun s => is_Some (data !! s)) syms ->
  exists rows,
    for_each step syms df = Ok (df ++ rows) /\
    Forall2 (fun s r => exists d, data !! s = Some d /\ r = mk s d) syms rows.
Proof.
  induction syms as [|s syms IH]; intros df H.
  - exists []. cbn. rewrite app_nil_r. split; [reflexivity|constructor].
  - inversion H as [|? ? [d Hd] Hrest]; subst.
    destruct (IH (df ++ [mk s d]) Hrest) as (rows & Hrun & Hrows).
    exists (mk s d :: rows). cbn [for_each].
    rewrite step_lookup, Hd. cbn [bind]. rewrite Hrun, <- app_assoc.
    split; [reflexivity|]. constructor; [eauto|assumption].
Qed.

Lemma append_absent pre s post : forall df,
  Forall (fun s' => is_Some (data !! s')) pre ->
  data !! s = None ->
  for_each step (pre ++ s :: post) df = Raise (KeyError s).
Proof.
  induction pre as [|s' pre IH]; intros df Hpre Hs.
  - cbn. rewrite step_lookup, Hs. reflexivity.
  - inversion Hpre as [|? ? [d Hd] Hpre']; subst.
    cbn [app for_each]. rewrite step_lookup, Hd. cbn [bind].
    apply IH; assumption.
Qed.

End AppendLoop.

(** C9 (as the code has it).  The loop over the symbols of a batch reads
    [data[symbol]] for each of them.  At the first symbol that is not a key
    of the response it raises [KeyError] for that symbol, which nothing
    catches: the run ends there and no frame is produced, neither with the
    rows of the symbols before it nor with those after it.  Only when every
    symbol of the batch is a key does the loop append one row per symbol,
    in order.  This holds for the loop of the first script and for both
    loops of the second. *)
Theorem absent_symbol_raises_key_error (symbol_string : string) :
  (forall pre s post,
     split "," symbol_string = pre ++ s :: post ->
     (forall fetch final_df,
        Forall (present (fetch symbol_string)) pre ->
        fetch symbol_string !! s = None ->
        EqualWeight.batch_loop fetch symbol_string final_df
        = Raise (KeyError s)) /\
     (forall fetch final_df hqm_df,
        Forall (present (fetch symbol_string)) pre ->
        fetch symbol_string !! s = None ->
        Momentum.batch_loop fetch symbol_string final_df = Raise (KeyError s) /\
        Momentum.hqm_batch_loop fetch symbol_string hqm_df
        = Raise (KeyError s))) /\
  (forall fetch final_df,
     Forall (present (fetch symbol_string)) (split "," symbol_string) ->
     exists rows,
       EqualWeight.batch_loop fetch symbol_string final_df
       = Ok (final_df ++ rows) /\
       map EqualWeight.Ticker rows = split "," symbol_string) /\
  (forall fetch final_df hqm_df,
     Forall (present (fetch symbol_string)) (split "," symbol_string) ->
     exists rows hqm_rows,
       Momentum.batch_loop fetch symbol_string final_df
       = Ok (final_df ++ rows) /\
       map Momentum.Ticker rows = split "," symbol_string /\
       Momentum.hqm_batch_loop fetch symbol_string hqm_df
       = Ok (hqm_df ++ hqm_rows) /\
       map Momentum.hqm_Ticker hqm_rows = split "," symbol_string).
Proof.
  split; [|split].
  - intros pre s post Hsplit. split.
    + intros fetch final_df Hpre Hs. unfold EqualWeight.batch_loop.
      rewrite Hsplit.
      apply (append_absent (fetch symbol_string)
               (fun symbol q => EqualWeight.Row symbol
                  (EqualWeight.latestPrice q) (EqualWeight.marketCap q) NA));
        [reflexivity|assumption|assumption].
    + intros fetch final_df hqm_df Hpre Hs.
      unfold Momentum.batch_loop, Momentum.hqm_batch_loop. rewrite Hsplit.
      split.
      * apply (append_absent (fetch symbol_string)
                 (fun symbol d => Momentum.Row symbol (Momentum.price d)
                    (Momentum.year1ChangePercent (Momentum.stock_stats d)) NA));
          [reflexivity|assumption|assumption].
      * apply (append_absent (fetch symbol_string)
                 (fun symbol d =>
                    let s := Momentum.stock_stats d in
                    Momentum.HqmRow symbol (Momentum.price d) NA
                      (Momentum.year1ChangePercent s) NA
                      (Momentum.month6ChangePercent s) NA
                      (Momentum.month3ChangePercent s) NA
                      (Momentum.month1ChangePercent s) NA NA));
          [reflexivity|assumption|assumption].
  - intros fetch final_df Hall. unfold EqualWeight.batch_loop.
    destruct (append_present (fetch symbol_string)
                (fun symbol q => EqualWeight.Row symbol
                   (EqualWeight.latestPrice q) (EqualWeight.marketCap q) NA)
                (EqualWeight.append_row (fetch symbol_string))
                ltac:(reflexivity) _ final_df Hall) as (rows & Hrun & Hrows).
    exists rows. split; [exact Hrun|].
    clear Hrun Hall. induction Hrows as [|? ? ? ? (d & _ & ->) _ IH];
      [reflexivity|]. cbn. rewrite IH. reflexivity.
  - intros fetch final_df hqm_df Hall.
    unfold Momentum.batch_loop, Momentum.hqm_batch_loop.
    destruct (append_present (fetch symbol_string)
                (fun symbol d => Momentum.Row symbol (Momentum.price d)
                   (Momentum.year1ChangePercent (Momentum.stock_stats d)) NA)
                (Momentum.append_row (fetch symbol_string))
                ltac:(reflexivity) _ final_df Hall) as (rows & Hrun & Hrows).
    destruct (append_present (fetch symbol_string)
                (fun symbol d =>
                   let s := Momentum.stock_stats d in
                   Momentum.HqmRow symbol (Momentum.price d) NA
                     (Momentum.year1ChangePercent s) NA
                     (Momentum.month6ChangePercent s) NA
                     (Momentum.month3ChangePercent s) NA
                     (Momentum.month1ChangePercent s) NA NA)
                (Momentum.hqm_append_row (fetch symbol_string))
                ltac:(reflexivity) _ hqm_df Hall) as (hrows & Hhrun & Hhrows).
    exists rows, hrows. split; [exact Hrun|]. split; [|split; [exact Hhrun|]].
    + clear Hrun Hall Hhrun Hhrows.
      induction Hrows as [|? ? ? ? (d & _ & ->) _ IH]; [reflexivity|].
      cbn. rewrite IH. reflexivity.
    + clear Hrun Hall Hhrun Hrows.
      induction Hhrows as [|? ? ? ? (d & _ & ->) _ IH]; [reflexivity|].
      cbn. rewrite IH. reflexivity.
Qed.

Lemma absent_symbol_raises_key_error_witness :
  let fetch := fun _ : string =>
    ({[ "AAPL"%string := EqualWeight.Quote (Some 150%Q) (Some 2000%Q) ]}
       : gmap string EqualWeight.quote) in
  EqualWeight.batch_loop fetch "AAPL,ZZZZ" [] = Raise (KeyError "ZZZZ").
Proof.
  intros fetch.
  apply (proj1 (proj1 (absent_symbol_raises_key_error "AAPL,ZZZZ")
                  ["AAPL"%string] "ZZZZ"%string [] eq_refl) fetch []).
  - repeat constructor. eexists. vm_compute. reflexivity.
  - vm_compute. reflexivity.
Defined.

(** C9 as the spec words it fails: with ["MSFT"] missing from the response
    for ["AAPL,MSFT,GOOG"], the batch yields no frame that skips the
    symbol and keeps the two others; the scripts end with [KeyError]. *)
Lemma absent_symbol_not_skipped :
  let quotes : gmap string EqualWeight.quote :=
    {[ "AAPL"%string := EqualWeight.Quote (Some 150%Q) (Some 2000%Q);
       "GOOG"%string := EqualWeight.Quote (Some 90%Q) (Some 1000%Q) ]} in
  let stocks : gmap string Momentum.stock :=
    {[ "AAPL"%string :=
         Momentum.Stock (Some 150%Q)
           (Momentum.Stats (Some (1#2)%Q) None None None);
       "GOOG"%string :=
         Momentum.Stock (Some 90%Q)
           (Momentum.Stats (Some (1#4)%Q) None None None) ]} in
  let tickers := ["AAPL"; "MSFT"; "GOOG"]%string in
  ~ (exists rows,
       EqualWeight.batch_loop (fun _ => quotes) "AAPL,MSFT,GOOG" [] = Ok rows
       /\ map EqualWeight.Ticker rows = ["AAPL"; "GOOG"]%string) /\
  EqualWeight.build_final_df (fun _ => quotes) tickers
  = Raise (KeyError "MSFT") /\
  EqualWeight.script (fun _ => quotes) float_of_digits tickers
    (World ["10000"%string] [])
  = Raise (KeyError "MSFT") /\
  Momentum.build_final_df (fun _ => stocks) tickers = Raise (KeyError "MSFT") /\
  Momentum.build_hqm_df (fun _ => stocks) tickers = Raise (KeyError "MSFT").
Proof.
  intros quotes stocks tickers. split; [|repeat split; vm_compute; reflexivity].
  intros (rows & Hrun & _).
  assert (E : EqualWeight.batch_loop (fun _ => quotes) "AAPL,MSFT,GOOG" []
              = Raise (KeyError "MSFT")) by (vm_compute; reflexivity).
  rewrite E in Hrun. discriminate.
Qed.

(** ** Allocator: an empty row set *)

(** C3 (as the code has it).  With no rows the allocator computes no
    share count and produces no infinite or undefined position size: the
    division by the row count itself raises Python's [ZeroDivisionError],
    in the first script for every portfolio value, in exact arithmetic and
    in binary64 alike, and in the screen of the second script for every
    portfolio size that [float] reads.  Nothing catches it: the first
    script run on an empty ticker list, and the screen run on an empty
    frame, end with that exception uncaught once the portfolio value is
    read.  In the strategy of the second script an empty frame does not
    reach the allocator: the selection by HQM score has no result and
    raises [KeyError]. *)
Theorem empty_rows_raise_zero_division :
  (forall val,
     EqualWeight.allocate val [] = Raise ZeroDivisionError /\
     EqualWeight.allocate_binary64 val [] = Raise ZeroDivisionError) /\
  (forall float portfolio_size val,
     float portfolio_size = Some val ->
     Momentum.allocate float portfolio_size [] = Raise ZeroDivisionError) /\
  (forall fetch float line rest printed val,
     float line = Some val ->
     ending_of (EqualWeight.script fetch float [] (World (line :: rest) printed))
     = Uncaught ZeroDivisionError) /\
  (forall float line rest printed val,
     float line = Some val ->
     ending_of (Momentum.screen_allocation float []
                  (World (line :: rest) printed))
     = Uncaught ZeroDivisionError) /\
  (forall out, ~ Momentum.select_best [] out) /\
  (forall e, Momentum.best_n_raises [] e <-> e = KeyError "HQM Score").
Proof.
  split; [|split; [|split; [|split; [|split]]]].
  - intros val. split; reflexivity.
  - intros float portfolio_size val Hval.
    unfold Momentum.allocate. rewrite Hval. reflexivity.
  - intros fetch float line rest printed val Hval.
    unfold EqualWeight.script, EqualWeight.read_val, input. cbn.
    rewrite Hval. reflexivity.
  - intros float line rest printed val Hval.
    unfold Momentum.screen_allocation, Momentum.portfolio_input, input. cbn.
    rewrite Hval. cbn. unfold Momentum.allocate. rewrite Hval. reflexivity.
  - intros out (Hne & _). apply Hne. reflexivity.
  - intros e. unfold Momentum.best_n_raises. split; [tauto|].
    intros ->. split; reflexivity.
Qed.

Lemma empty_rows_raise_zero_division_witness :
  float_of_digits "10000" = Some 10000%Q /\
  Momentum.allocate float_of_digits "10000" [] = Raise ZeroDivisionError /\
  ending_of (Momentum.screen_allocation float_of_digits []
               (World ["10000"%string] []))
  = Uncaught ZeroDivisionError.
Proof.
  split; [reflexivity|]. split.
  - apply (proj1 (proj2 empty_rows_raise_zero_division) float_of_digits
             "10000"%string 10000%Q).
    reflexivity.
  - apply (proj1 (proj2 (proj2 (proj2 empty_rows_raise_zero_division)))
             float_of_digits "10000"%string [] [] 10000%Q).
    reflexivity.
Defined.

(** C3 as the spec words it fails: the division is not guarded and nothing
    is reported.  The first script run on an empty ticker list with the
    portfolio value 10000, and the screen of the second script run on an
    empty frame, read the value and then end with the [ZeroDivisionError]
    that the division [val/len(final_df.index)] itself raises, the same the
    interpreter raises for [10000.0/0], and uncaught; no run ends with a
    [DivisionByZeroError] reported by the program, with whatever
    message. *)
Lemma empty_rows_division_unguarded :
  let run :=
    EqualWeight.script (fun _ => ∅) float_of_digits []
      (World ["10000"%string] []) in
  let screen :=
    Momentum.screen_allocation float_of_digits [] (World ["10000"%string] []) in
  truediv 10000 (of_nat (length (@nil EqualWeight.row)))
  = Raise ZeroDivisionError /\
  run = Raise ZeroDivisionError /\
  screen = Raise ZeroDivisionError /\
  ending_of run = Uncaught ZeroDivisionError /\
  ending_of screen = Uncaught ZeroDivisionError /\
  (forall message,
     ending_of run <> Reported "DivisionByZeroError" message /\
     ending_of screen <> Reported "DivisionByZeroError" message).
Proof.
  intros run screen.
  assert (Hrun : run = Raise ZeroDivisionError) by (vm_compute; reflexivity).
  assert (Hscreen : screen = Raise ZeroDivisionError)
    by (vm_compute; reflexivity).
  split; [reflexivity|]. split; [exact Hrun|]. split; [exact Hscreen|].
  rewrite Hrun, Hscreen. split; [reflexivity|]. split; [reflexivity|].
  intros message. split; discriminate.
Qed.

(** ** The prompt of the momentum script *)

(** C10.  In the momentum script, when the first line entered is not a
    number, [portfolio_input] prints its message, reads a second line and
    returns it as [portfolio_size] whatever it is: the second line is never
    passed to [float] at the prompt.  If it is not a number either, the
    failure comes later: both allocations raise [ValueError] at
    [float(portfolio_size)], with any frame. *)
Theorem reprompt_accepts_any_line
    (float : string -> option Q) (first second : string)
    (rest printed : list string) :
  float first = None ->
  Momentum.portfolio_input float (World (first :: second :: rest) printed)
  = Ok (second,
        World rest
          (printed ++ [Momentum.prompt] ++
           ["That's not a number! \n Try again:"%string] ++ [Momentum.prompt]))
  /\
  (float second = None ->
   (forall final_df,
      Momentum.allocate float second final_df = Raise ValueError) /\
   (forall hqm_df,
      Momentum.hqm_allocate float second hqm_df = Raise ValueError) /\
   (forall final_df,
      Momentum.screen_allocation float final_df
        (World (first :: second :: rest) printed)
      = Raise ValueError) /\
   (forall hqm_df,
      Momentum.hqm_allocation float hqm_df
        (World (first :: second :: rest) printed)
      = Raise ValueError)).
Proof.
  intros Hfirst.
  assert (Hin : Momentum.portfolio_input float
                  (World (first :: second :: rest) printed)
                = Ok (second,
                      World rest
                        (printed ++ [Momentum.prompt] ++
                         ["That's not a number! \n Try again:"%string] ++
                         [Momentum.prompt]))).
  { unfold Momentum.portfolio_input, input. cbn. rewrite Hfirst. cbn.
    rewrite <- !app_assoc. reflexivity. }
  split; [exact Hin|]. intros Hsecond.
  assert (Hal : forall final_df,
            Momentum.allocate float second final_df = Raise ValueError).
  { intros final_df. unfold Momentum.allocate. rewrite Hsecond. reflexivity. }
  assert (Hhqm : forall hqm_df,
            Momentum.hqm_allocate float second hqm_df = Raise ValueError).
  { intros hqm_df. unfold Momentum.hqm_allocate. rewrite Hsecond.
    reflexivity. }
  split; [exact Hal|]. split; [exact Hhqm|]. split.
  - intros final_df. unfold Momentum.screen_allocation. rewrite Hin.
    cbn [bind fst snd]. rewrite Hal. reflexivity.
  - intros hqm_df. unfold Momentum.hqm_allocation. rewrite Hin.
    cbn [bind fst snd]. rewrite Hhqm. reflexivity.
Qed.

Lemma reprompt_accepts_any_line_witness :
  float_of_digits "ten thousand" = None /\
  float_of_digits "lots" = None /\
  Momentum.portfolio_input float_of_digits
    (World ["ten thousand"; "lots"]%string [])
  = Ok ("lots"%string,
        World []
          ([] ++ [Momentum.prompt] ++
           ["That's not a number! \n Try again:"%string] ++ [Momentum.prompt]))
  /\
  forall final_df,
    Momentum.screen_allocation float_of_digits final_df
      (World ["ten thousand"; "lots"]%string [])
    = Raise ValueError.
Proof.
  pose proof (reprompt_accepts_any_line float_of_digits
                "ten thousand"%string "lots"%string [] [] eq_refl)
    as [Hin Hlater].
  split; [reflexivity|]. split; [reflexivity|]. split; [exact Hin|].
  apply (proj1 (proj2 (proj2 (Hlater eq_refl)))).
Defined.

(** ** Allocator: the share count *)

Section ShareCount.
Local Open Scope Q_scope.

(** The equal-weight script stores the floor of position size over price. *)
Lemma equal_weight_shares_floor val final_df out i r p :
  EqualWeight.allocate val final_df = Ok out ->
  final_df !! i = Some r ->
  EqualWeight.Stock_Price r = Some p -> 0 < p ->
  exists r',
    out !! i = Some r' /\
    EqualWeight.Number_of_Shares_to_Buy r'
    = Val (Qfloor (val / of_nat (length final_df) / p)).
Proof.
  intros Hrun Hr Hp Hpos.
  rewrite allocate_traverse in Hrun by (intros ->; discriminate).
  destruct (traverse_ok_lookup _ _ _ _ _ Hrun Hr) as (r' & Hr' & Hstep).
  exists r'. split; [assumption|].
  rewrite (shares_of_positive _ r p Hp Hpos) in Hstep.
  injection Hstep as <-. reflexivity.
Qed.

Lemma momentum_allocate_traverse float portfolio_size val final_df :
  float portfolio_size = Some val -> final_df <> [] ->
  Momentum.allocate float portfolio_size final_df
  = traverse (quotient_of (val / of_nat (length final_df))) final_df.
Proof.
  intros Hval Hne. unfold Momentum.allocate. rewrite Hval. cbn [bind].
  rewrite truediv_of_nat by (destruct final_df; [congruence | cbn; lia]).
  cbn [bind]. rewrite range_0_1. cbn [bind].
  apply (index_loop (fun _ : nat * Momentum.row => tt)
           (fun _ => quotient_of (val / of_nat (length final_df)))).
  - intros d i [l r] Hr. unfold Momentum.shares_step, quotient_of.
    rewrite Hr. cbn [fst snd].
    destruct (number (Momentum.Price r)) as [price|]; cbn [bind];
      [|reflexivity].
    destruct (truediv _ price); reflexivity.
  - reflexivity.
Qed.

Lemma hqm_allocate_traverse float portfolio_size val hqm_df :
  float portfolio_size = Some val -> hqm_df <> [] ->
  Momentum.hqm_allocate float portfolio_size hqm_df
  = traverse (hqm_quotient_of (val / of_nat (length hqm_df))) hqm_df.
Proof.
  intros Hval Hne. unfold Momentum.hqm_allocate. rewrite Hval. cbn [bind].
  rewrite truediv_of_nat by (destruct hqm_df; [congruence | cbn; lia]).
  cbn [bind].
  apply (index_loop (fun _ : Momentum.hqm_row => tt)
           (fun _ => hqm_quotient_of (val / of_nat (length hqm_df)))).
  - intros d i r Hr. unfold Momentum.hqm_shares_step, hqm_quotient_of.
    rewrite Hr.
    destruct (number (Momentum.hqm_Price r)) as [price|]; cbn [bind];
      [|reflexivity].
    destruct (truediv _ price); reflexivity.
  - reflexivity.
Qed.

(** The momentum script stores the quotient itself, in both of its
    allocations. *)
Lemma momentum_shares_quotient float portfolio_size val final_df out i x p :
  float portfolio_size = Some val ->
  Momentum.allocate float portfolio_size final_df = Ok out ->
  final_df !! i = Some x ->
  Momentum.Price (snd x) = Some p -> 0 < p ->
  exists x',
    out !! i = Some x' /\
    Momentum.Number_of_Shares_to_Buy (snd x')
    = Val (val / of_nat (length final_df) / p).
Proof.
  intros Hval Hrun Hx Hp Hpos.
  rewrite (momentum_allocate_traverse _ _ val) in Hrun
    by (try assumption; intros ->; discriminate).
  destruct (traverse_ok_lookup _ _ _ _ _ Hrun Hx) as (x' & Hx' & Hstep).
  exists x'. split; [assumption|].
  unfold quotient_of in Hstep. rewrite Hp in Hstep. cbn [number bind] in Hstep.
  rewrite truediv_pos in Hstep by assumption. injection Hstep as <-.
  reflexivity.
Qed.

Lemma hqm_shares_quotient float portfolio_size val hqm_df out i r p :
  float portfolio_size = Some val ->
  Momentum.hqm_allocate float portfolio_size hqm_df = Ok out ->
  hqm_df !! i = Some r ->
  Momentum.hqm_Price r = Some p -> 0 < p ->
  exists r',
    out !! i = Some r' /\
    Momentum.hqm_Number_of_Shares_to_Buy r'
    = Val (val / of_nat (length hqm_df) / p).
Proof.
  intros Hval Hrun Hr Hp Hpos.
  rewrite (hqm_allocate_traverse _ _ val) in Hrun
    by (try assumption; intros ->; discriminate).
  destruct (traverse_ok_lookup _ _ _ _ _ Hrun Hr) as (r' & Hr' & Hstep).
  exists r'. split; [assumption|].
  unfold hqm_quotient_of in Hstep. rewrite Hp in Hstep.
  cbn [number bind] in Hstep.
  rewrite truediv_pos in Hstep by assumption. injection Hstep as <-.
  destruct r; reflexivity.
Qed.

End ShareCount.


(** C2, at a portfolio of 1000 over three rows priced 7.  The equal-weight
    script stores [floor(position_size / price)], here the integer 47; the
    momentum script stores the quotient itself, here 1000/21, which is not
    a whole number, in the screen and in the strategy alike. *)
Theorem momentum_shares_not_floored :
  let equal_weight_df := [EqualWeight.Row "A" (Some 7%Q) None NA;
                          EqualWeight.Row "AAL" (Some 7%Q) None NA;
                          EqualWeight.Row "AAP" (Some 7%Q) None NA] in
  let final_df := [(2%nat, Momentum.Row "A" (Some 7%Q) (Some (1#2)%Q) NA);
                   (0%nat, Momentum.Row "AAL" (Some 7%Q) (Some (1#3)%Q) NA);
                   (1%nat, Momentum.Row "AAP" (Some 7%Q) (Some (1#4)%Q) NA)] in
  let hqm_df :=
    map (fun t => Momentum.HqmRow t (Some 7%Q) NA (Some 0%Q) (Val (1#3)%Q)
                    (Some 0%Q) (Val (1#3)%Q) (Some 0%Q) (Val (1#3)%Q)
                    (Some 0%Q) (Val (1#3)%Q) (Val (1#3)%Q))
        ["A"; "AAL"; "AAP"]%string in
  (exists out,
     EqualWeight.allocate 1000%Q equal_weight_df = Ok out /\
     map EqualWeight.Number_of_Shares_to_Buy out = [Val 47; Val 47; Val 47]%Z) /\
  (exists out,
     Momentum.allocate float_of_digits "1000" final_df = Ok out /\
     map (fun x => Momentum.Number_of_Shares_to_Buy (snd x)) out
     = [Val (1000#21); Val (1000#21); Val (1000#21)]%Q) /\
  (exists out,
     Momentum.hqm_allocate float_of_digits "1000" hqm_df = Ok out /\
     map Momentum.hqm_Number_of_Shares_to_Buy out
     = [Val (1000#21); Val (1000#21); Val (1000#21)]%Q) /\
  ~ integral (1000#21)%Q /\
  ~ ((1000#21) == inject_Z (Qfloor (1000 / 3 / 7)))%Q.
Proof.
  intros equal_weight_df final_df hqm_df.
  split; [eexists; split; vm_compute; reflexivity|].
  split; [eexists; split; vm_compute; reflexivity|].
  split; [eexists; split; vm_compute; reflexivity|].
  split.
  - intros [z Hz]. unfold Qeq in Hz. cbn in Hz. lia.
  - vm_compute. discriminate.
Qed.

(** ** Ranking engine: the normalization loop *)

Section Normalization.
Import Momentum.







End Normalization.

(** ** Ranking engine: the percentile and score loops *)

Section Percentiles.
Import Momentum.

Lemma change_col_returns tp r : change_col tp r = return_of tp (returns r).
Proof. destruct tp; reflexivity. Qed.

Lemma returns_set_percentile tp x r :
  returns (set_percentile_col tp x r) = returns r.
Proof. destruct r, tp; reflexivity. Qed.

Lemma change_col_set_percentile tp tp' x r :
  change_col tp (set_percentile_col tp' x r) = change_col tp r.
Proof. destruct r, tp, tp'; reflexivity. Qed.

Lemma percentile_cell_row row tp (d : list hqm_row) r :
  d !! row = Some r ->
  percentile_cell row tp d =
  let* r' := percentile_step (map returns d) tp r in Ok (<[row := r']> d).
Proof.
  intros Hr. unfold percentile_cell, percentile_step. rewrite Hr.
  rewrite map_map.
  rewrite (map_ext (change_col tp) (fun x => return_of tp (returns x)))
    by (intros; apply change_col_returns).
  destruct (score _ _); reflexivity.
Qed.

Lemma percentile_step_returns v tp r r' :
  percentile_step v tp r = Ok r' -> returns r' = returns r.
Proof.
  unfold percentile_step. destruct (score _ _); cbn; [|discriminate].
  intros [= <-]. apply returns_set_percentile.
Qed.

Lemma percentiles_traverse hqm_df :
  percentiles hqm_df =
  traverse (fun r => for_each (percentile_step (map returns hqm_df))
                              time_periods r) hqm_df.
Proof.
  unfold percentiles.
  apply (index_loop returns
           (fun v r => for_each (percentile_step v) time_periods r)).
  - intros d i r Hr.
    apply (same_row_loop returns percentile_step (percentile_cell i) i).
    + intros t d' r' Hr'. apply percentile_cell_row. assumption.
    + intros v t r1 r2. apply percentile_step_returns.
    + assumption.
  - intros v r r'. generalize time_periods. intros ts. revert r.
    induction ts as [|t ts IH]; intros r; cbn.
    + intros [= <-]. reflexivity.
    + destruct (percentile_step v t r) as [r1|] eqn:E; cbn; [|discriminate].
      intros H. rewrite (IH _ H). eapply percentile_step_returns. eassumption.
Qed.

Lemma numbers_of_column tp hqm_df :
  Forall complete hqm_df ->
  traverse number (map (return_of tp) (map returns hqm_df))
  = Ok (column tp hqm_df).
Proof.
  induction 1 as [|r rows Hr _ IH]; [reflexivity|].
  cbn [map traverse]. rewrite <- change_col_returns, (Hr tp). cbn [number bind].
  rewrite IH. reflexivity.
Qed.

Lemma percentile_step_complete hqm_df tp r :
  Forall complete hqm_df -> complete r ->
  percentile_step (map returns hqm_df) tp r
  = Ok (set_percentile_col tp
          (Val (stored_percentile (column tp hqm_df) (value tp r))) r).
Proof.
  intros Hdf Hr. unfold percentile_step, score.
  rewrite numbers_of_column by assumption. cbn [bind].
  rewrite (Hr tp). reflexivity.
Qed.

Lemma complete_set_percentile tp x r :
  complete r -> complete (set_percentile_col tp x r).
Proof.
  intros Hr tp'. unfold value. rewrite change_col_set_percentile.
  apply Hr.
Qed.

Lemma value_set_percentile tp tp' x r :
  value tp (set_percentile_col tp' x r) = value tp r.
Proof. unfold value. rewrite change_col_set_percentile. reflexivity. Qed.

Lemma percentile_periods hqm_df r :
  Forall complete hqm_df -> complete r ->
  for_each (percentile_step (map returns hqm_df)) time_periods r
  = Ok (percentile_row hqm_df r).
Proof.
  intros Hdf Hr. unfold time_periods. cbn [for_each].
  repeat (rewrite percentile_step_complete
            by (try assumption; repeat apply complete_set_percentile;
                assumption);
          cbn [bind]).
  rewrite !value_set_percentile. destruct r; reflexivity.
Qed.

(** Without missing returns the percentile loop never raises and rewrites
    every row on its own. *)
Lemma percentiles_map hqm_df :
  Forall complete hqm_df ->
  percentiles hqm_df = Ok (map (percentile_row hqm_df) hqm_df).
Proof.
  intros Hdf. rewrite percentiles_traverse. apply traverse_map.
  eapply Forall_impl; [exact Hdf|]. intros r Hr. cbn beta.
  apply percentile_periods; assumption.
Qed.





End Percentiles.

(** ** The rank percentile *)

Section Rank.
Import Scipy.
Local Open Scope Q_scope.

Lemma Qlt_bool_iff x y : Qlt_bool x y = true <-> x < y.
Proof.
  unfold Qlt_bool. rewrite negb_true_iff. split.
  - intros H. apply Qnot_le_lt. intros Hle. apply Qle_bool_iff in Hle.
    congruence.
  - intros H. destruct (Qle_bool y x) eqn:E; [|reflexivity].
    apply Qle_bool_iff in E. exfalso. revert H. apply Qle_not_lt. assumption.
Qed.


Lemma filter_length_mono {X} (f g : X -> bool) (l : list X) :
  (forall x, f x = true -> g x = true) ->
  (length (List.filter f l) <= length (List.filter g l))%nat.
Proof.
  intros Hfg. induction l as [|x l IH]; [reflexivity|]. cbn.
  destruct (f x) eqn:Ef.
  - rewrite (Hfg x Ef). cbn. lia.
  - destruct (g x); cbn; lia.
Qed.



Lemma filter_length_bound {X} (f : X -> bool) (l : list X) :
  (length (List.filter f l) <= length l)%nat.
Proof.
  induction l as [|x l IH]; [reflexivity|]. cbn. destruct (f x); cbn; lia.
Qed.

Lemma count_lt_le a v : (count_lt a v <= count_le a v)%nat.
Proof.
  apply filter_length_mono. intros x Hx. apply Qlt_bool_iff in Hx.
  apply Qle_bool_iff. apply Qlt_le_weak. assumption.
Qed.

Lemma count_le_length a v : (count_le a v <= length a)%nat.
Proof. apply filter_length_bound. Qed.

(** A value of the population counts itself among the values [<=] it and
    not among those [<] it. *)
Lemma count_lt_lt_le a v :
  Exists (fun x => x == v) a -> (count_lt a v < count_le a v)%nat.
Proof.
  unfold count_lt, count_le. induction 1 as [x l Hx|x l _ IH]; cbn.
  - replace (Qlt_bool x v) with false.
    2:{ symmetry. apply not_true_iff_false. rewrite Qlt_bool_iff, Hx.
        apply Qlt_irrefl. }
    replace (Qle_bool x v) with true.
    2:{ symmetry. apply Qle_bool_iff. rewrite Hx. apply Qle_refl. }
    cbn. pose proof (count_lt_le l v). unfold count_lt, count_le in *. lia.
  - destruct (Qlt_bool x v) eqn:E.
    + apply Qlt_bool_iff in E.
      replace (Qle_bool x v) with true
        by (symmetry; apply Qle_bool_iff, Qlt_le_weak; assumption).
      cbn. lia.
    + destruct (Qle_bool x v); cbn; lia.
Qed.

(** Equal values have equal counts. *)
Lemma count_lt_comp a v w : v == w -> count_lt a v = count_lt a w.
Proof.
  intros E. unfold count_lt. f_equal. apply filter_ext. intros x.
  apply eq_true_iff_eq. rewrite !Qlt_bool_iff, E. reflexivity.
Qed.

Lemma count_le_comp a v w : v == w -> count_le a v = count_le a w.
Proof.
  intros E. unfold count_le. f_equal. apply filter_ext. intros x.
  apply eq_true_iff_eq. rewrite !Qle_bool_iff, E. reflexivity.
Qed.


(** The percentile stored for a value of the population. *)
Lemma stored_percentile_rank a v :
  (count_lt a v < count_le a v)%nat ->
  stored_percentile a v
  == of_nat (count_lt a v + count_le a v + 1) / (2 * of_nat (length a)).
Proof.
  intros H. unfold stored_percentile, percentileofscore.
  destruct (Nat.ltb_spec (count_lt a v) (count_le a v)) as [_|]; [|lia].
  assert (Hn : 0 < of_nat (length a)).
  { apply of_nat_positive. pose proof (count_le_length a v). lia. }
  field. intros E. rewrite E in Hn. revert Hn. apply Qlt_irrefl.
Qed.

End Rank.

Section RankFacts.
Import Scipy Momentum.
Local Open Scope Q_scope.

Lemma ratio_lt a b d : 0 < d -> a < b -> a / d < b / d.
Proof.
  intros Hd H. unfold Qdiv. apply Qmult_lt_compat_r; [|assumption].
  apply Qinv_lt_0_compat. assumption.
Qed.

Lemma twice_of_nat n : of_nat (n + n) == 2 * of_nat n.
Proof. rewrite of_nat_add. ring. Qed.

Lemma half_ratio r n : 0 < of_nat n -> of_nat (r + r) / (2 * of_nat n) == of_nat r / of_nat n.
Proof.
  intros Hn. rewrite twice_of_nat. field. intros E. rewrite E in Hn.
  revert Hn. apply Qlt_irrefl.
Qed.

(** The stored percentile of a value of the population is a fraction in
    (0, 1]; it is the fraction of values [<=] it exactly when the value
    occurs once, and is smaller when it occurs more often. *)
Lemma stored_percentile_facts a v :
  Exists (fun x => x == v) a ->
  0 < stored_percentile a v /\
  stored_percentile a v <= 1 /\
  (count_le a v = S (count_lt a v) ->
   stored_percentile a v == of_nat (count_le a v) / of_nat (length a)) /\
  ((S (count_lt a v) < count_le a v)%nat ->
   stored_percentile a v < of_nat (count_le a v) / of_nat (length a)).
Proof.
  intros Hv. pose proof (count_lt_lt_le a v Hv) as Hlt.
  pose proof (count_le_length a v) as Hle.
  assert (Hn : 0 < of_nat (length a)) by (apply of_nat_positive; lia).
  assert (H2n : 0 < 2 * of_nat (length a)).
  { rewrite <- twice_of_nat. apply of_nat_positive. lia. }
  rewrite (stored_percentile_rank a v Hlt).
  split; [|split; [|split]].
  - apply Qlt_shift_div_l; [assumption|]. rewrite Qmult_0_l.
    apply of_nat_positive. lia.
  - apply Qle_shift_div_r; [assumption|]. rewrite Qmult_1_l, <- twice_of_nat.
    apply of_nat_le. lia.
  - intros E. rewrite <- (half_ratio (count_le a v)) by assumption.
    replace (count_lt a v + count_le a v + 1)%nat
      with (count_le a v + count_le a v)%nat by lia.
    reflexivity.
  - intros H. rewrite <- (half_ratio (count_le a v)) by assumption.
    apply ratio_lt; [assumption|]. apply of_nat_lt. lia.
Qed.

Lemma percentile_col_percentile_row hqm_df tp r :
  percentile_col tp (percentile_row hqm_df r)
  = Val (stored_percentile (column tp hqm_df) (value tp r)).
Proof. destruct tp; reflexivity. Qed.

Lemma column_has_value tp (hqm_df : list hqm_row) i r :
  hqm_df !! i = Some r ->
  Exists (fun x => x == value tp r) (column tp hqm_df).
Proof.
  intros Hr. apply Exists_exists. exists (value tp r).
  split; [|reflexivity]. unfold column. apply list_elem_of_In, in_map.
  apply list_elem_of_In. eapply list_elem_of_lookup_2. eassumption.
Qed.

(** C1 (as the code has it).  For a frame whose returns are all numbers,
    the percentile loop returns, and the percentile it stores for a row and
    a horizon is, with [P] the population of that horizon and [v] the row's
    value, ((number of elements of P < v) + (number of elements of P <= v)
    + 1) / (2 |P|): scipy's default [rank] percentile over 100.  It is a
    fraction in (0, 1]; it equals (number of elements <= v) / |P| when [v]
    occurs once in [P] and is smaller than that when [v] occurs more than
    once; and two rows with equal values for a horizon store the same
    percentile for it. *)
Theorem stored_percentile_is_rank (hqm_df : list hqm_row) :
  Forall complete hqm_df ->
  exists out,
    percentiles hqm_df = Ok out /\
    length out = length hqm_df /\
    forall i r tp,
      hqm_df !! i = Some r ->
      exists r' p,
        out !! i = Some r' /\
        percentile_col tp r' = Val p /\
        let P := column tp hqm_df in
        let v := value tp r in
        p == of_nat (count_lt P v + count_le P v + 1) / (2 * of_nat (length P)) /\
        0 < p /\ p <= 1 /\
        (count_le P v = S (count_lt P v) ->
         p == of_nat (count_le P v) / of_nat (length P)) /\
        ((S (count_lt P v) < count_le P v)%nat ->
         p < of_nat (count_le P v) / of_nat (length P)) /\
        (forall j r2 r2',
           hqm_df !! j = Some r2 -> value tp r2 == v ->
           out !! j = Some r2' -> percentile_col tp r2' = Val p).
Proof.
  intros Hdf. exists (map (percentile_row hqm_df) hqm_df).
  split; [apply percentiles_map; assumption|].
  split; [apply length_map|].
  intros i r tp Hr.
  exists (percentile_row hqm_df r),
         (stored_percentile (column tp hqm_df) (value tp r)).
  split; [rewrite list_lookup_fmap, Hr; reflexivity|].
  split; [apply percentile_col_percentile_row|].
  cbn zeta. pose proof (column_has_value tp hqm_df i r Hr) as Hin.
  destruct (stored_percentile_facts _ _ Hin) as (Hpos & Hone & Hsingle & Hties).
  split; [apply stored_percentile_rank, count_lt_lt_le; assumption|].
  split; [assumption|]. split; [assumption|].
  split; [assumption|]. split; [assumption|].
  intros j r2 r2' Hr2 Hv Hout.
  rewrite list_lookup_fmap, Hr2 in Hout. injection Hout as <-.
  rewrite percentile_col_percentile_row. f_equal.
  unfold stored_percentile, percentileofscore.
  rewrite (count_lt_comp _ _ _ Hv), (count_le_comp _ _ _ Hv). reflexivity.
Qed.

End RankFacts.

Lemma stored_percentile_is_rank_witness :
  let hqm_df :=
    [fetched_row "A" (Some (1#2)) (Some (1#4)) (Some (1#8)) (Some (1#16));
     fetched_row "AAL" (Some (1#2)) (Some (-1#4)) (Some 0) (Some (3#16));
     fetched_row "AAP" (Some (-1#5)) (Some (3#4)) (Some 0) (Some (1#16))]%Q in
  Forall complete hqm_df /\
  exists out, Momentum.percentiles hqm_df = Ok out /\ length out = length hqm_df.
Proof.
  intros hqm_df.
  assert (H : Forall complete hqm_df)
    by (repeat constructor; intros tp; destruct tp; reflexivity).
  split; [exact H|].
  destruct (stored_percentile_is_rank hqm_df H) as (out & Hrun & Hlen & _).
  exists out. split; assumption.
Defined.

(** C1 as the spec words it fails on a tie: in the population
    [0.1, 0.1, 0.2] two of three values are [<= 0.1], yet the percentile
    stored for the rows valued 0.1 is 1/2, not 2/3. *)
Lemma tied_percentile_is_not_weak :
  let hqm_df :=
    [fetched_row "A" (Some (1#10)) (Some (1#10)) (Some (1#10)) (Some (1#10));
     fetched_row "AAL" (Some (1#10)) (Some (1#10)) (Some (1#10)) (Some (1#10));
     fetched_row "AAP" (Some (2#10)) (Some (2#10)) (Some (2#10)) (Some (2#10))]%Q in
  let P := column Momentum.One_Year hqm_df in
  exists out r' p,
    Momentum.percentiles hqm_df = Ok out /\
    out !! 0%nat = Some r' /\
    Momentum.percentile_col Momentum.One_Year r' = Val p /\
    (p == 1#2)%Q /\
    (of_nat (Scipy.count_le P (1#10)) / of_nat (length P) == 2#3)%Q /\
    ~ (p == of_nat (Scipy.count_le P (1#10)) / of_nat (length P))%Q.
Proof.
  intros hqm_df P. eexists _, _, _.
  split; [vm_compute; reflexivity|].
  split; [vm_compute; reflexivity|].
  split; [vm_compute; reflexivity|].
  split; [vm_compute; reflexivity|].
  split; [vm_compute; reflexivity|].
  vm_compute. discriminate.
Qed.

(** ** Ranking engine: the composite score *)

Section Composite.
Import Scipy Momentum.
Local Open Scope Q_scope.












End Composite.

Section CompositeScore.
Import Momentum.
Local Open Scope Q_scope.



End CompositeScore.



(** ** pandas: what a descending sort guarantees *)

Section SortValues.
Context {R : Type}.
Variable key : R -> option Q.
Import Pandas.

Lemma ranks_before_total a b : ranks_before a b \/ ranks_before b a.
Proof.
  destruct a as [x|], b as [y|]; cbn; try tauto.
  destruct (Qlt_le_dec x y) as [H|H]; [right; apply Qlt_le_weak|left];
    assumption.
Qed.

Lemma ranks_before_trans a b c :
  ranks_before a b -> ranks_before b c -> ranks_before a c.
Proof.
  destruct a as [x|], b as [y|], c as [z|]; cbn; try tauto.
  intros H1 H2. eapply Qle_trans; eassumption.
Qed.

Lemma filter_partition {X} (f : X -> bool) (l : list X) :
  Permutation (List.filter f l ++ List.filter (fun x => negb (f x)) l) l.
Proof.
  induction l as [|x l IH]; [constructor|]. cbn.
  destruct (f x); cbn.
  - constructor. assumption.
  - symmetry. apply Permutation_cons_app. symmetry. assumption.
Qed.

Lemma filter_isna_notna (l : list (nat * R)) :
  List.filter (isna key) l
  = List.filter (fun x => negb (notna key x)) l.
Proof.
  apply filter_ext. intros x. unfold notna. rewrite negb_involutive.
  reflexivity.
Qed.

(** A sorted frame is the frame rearranged. *)
Lemma sort_values_permutation kind df out :
  sort_values_descending key kind df out -> Permutation out (labelled df).
Proof.
  intros [body Hperm _ _]. rewrite Hperm, filter_isna_notna.
  apply filter_partition.
Qed.

Lemma sort_values_length kind df out :
  sort_values_descending key kind df out -> length out = length df.
Proof.
  intros H. rewrite (Permutation_length (sort_values_permutation _ _ _ H)).
  unfold labelled. apply length_imap.
Qed.

(** A sorted frame is in descending order with the missing values last. *)
Lemma sort_values_descending_na_last kind df out :
  sort_values_descending key kind df out ->
  descending_na_last (fun x => key (snd x)) out.
Proof.
  intros [body Hperm Hsorted _]. unfold descending_na_last.
  assert (Hbody : Forall (fun x => notna key x = true) body).
  { apply Forall_forall. intros x Hx. apply list_elem_of_In in Hx.
    apply (Permutation_in _ Hperm) in Hx. apply filter_In in Hx. tauto. }
  apply StronglySorted_app_2.
  - intros x y _ Hy. apply list_elem_of_In, filter_In in Hy as [_ Hy].
    unfold isna in Hy. unfold ranks_before.
    destruct (key (snd y)); [discriminate|]. destruct (key (snd x)); exact I.
  - clear Hperm. induction Hsorted as [|x l _ IH Hx]; [constructor|].
    inversion Hbody as [|? ? Hnx Hl]; subst.
    constructor; [apply IH; assumption|].
    rewrite Forall_forall in Hx, Hl |- *. intros y Hy.
    specialize (Hx y Hy). specialize (Hl y Hy). unfold desc in Hx.
    unfold notna, isna in Hnx, Hl. unfold ranks_before.
    destruct (key (snd x)); [|discriminate].
    destruct (key (snd y)); [assumption|discriminate].
  - generalize (labelled df). intros l. induction l as [|y l IH]; [constructor|].
    cbn. destruct (isna key y) eqn:E; [|assumption].
    constructor; [assumption|]. apply Forall_forall. intros z Hz.
    apply list_elem_of_In, filter_In in Hz as [_ Hz]. unfold isna in Hz.
    unfold ranks_before. destruct (key (snd z)); [discriminate|].
    destruct (key (snd y)); exact I.
Qed.

(** A sort that need not be stable always has a result. *)
Lemma sort_values_total kind df :
  is_stable kind = false -> exists out, sort_values_descending key kind df out.
Proof.
  intros Hkind.
  set (body := @merge_sort _ (label_order key) (label_order_dec key)
                 (List.filter (notna key) (labelled df))).
  exists (body ++ List.filter (isna key) (labelled df)).
  constructor.
  - apply merge_sort_Permutation.
  - assert (Hs : StronglySorted (label_order key) body).
    { apply StronglySorted_merge_sort.
      - intros x y z. apply ranks_before_trans.
      - intros x y. apply ranks_before_total. }
    clear -Hs. induction Hs as [|x l _ IH Hx]; constructor; [assumption|].
    eapply Forall_impl; [exact Hx|]. intros y Hy. unfold label_order in Hy.
    unfold desc, ranks_before in *.
    destruct (key (snd x)), (key (snd y)); tauto.
  - rewrite Hkind. discriminate.
Qed.


Lemma labelled_rows (df : list R) : map snd (labelled df) = df.
Proof.
  unfold labelled.
  change (map snd (imap (fun i r => (id i, r)) df) = df).
  generalize (@id nat). induction df as [|r df IH]; intros f; [reflexivity|].
  cbn. f_equal. apply (IH (fun i => f (S i))).
Qed.

End SortValues.

(** ** Ranking engine: the top rows *)

Section TopRows.
Import Pandas.

Lemma head_length {X} n (l : list X) : length (head n l) = Nat.min n (length l).
Proof. apply length_firstn. Qed.

(** What is cut off by [head]: the first [n] rows of a sorted frame and the
    rest make up the sorted frame. *)
Lemma head_of_sorted {R} (key : R -> option Q) kind n df sorted :
  sort_values_descending key kind df sorted ->
  length (head n sorted) = Nat.min n (length df) /\
  (exists rest,
     Permutation (head n sorted ++ rest) (labelled df) /\
     descending_na_last (fun x => key (snd x)) (head n sorted ++ rest)) /\
  ((length df <= n)%nat -> Permutation (head n sorted) (labelled df)).
Proof.
  intros Hsort.
  pose proof (sort_values_length key _ _ _ Hsort) as Hlen.
  pose proof (sort_values_permutation key _ _ _ Hsort) as Hperm.
  split; [rewrite head_length, Hlen; reflexivity|]. split.
  - exists (skipn n sorted). unfold head. rewrite firstn_skipn.
    split; [assumption|].
    eapply sort_values_descending_na_last. eassumption.
  - intros Hn. unfold head. rewrite firstn_all2 by lia. assumption.
Qed.

(** C6 (as the code has it).  For every frame and every [n] the
    one-year screen has a result, and every result has exactly
    [min n (number of rows)] rows: the first [n] rows of the frame
    rearranged in descending order of the one-year return, the rows without
    a return last; a frame of at most [n] rows comes back whole.  The same
    holds for the selection by HQM score on a frame that has a row; on a
    frame without rows that selection has no result, the sort raises
    [KeyError].  The sort is pandas' default [quicksort], so nothing is
    promised about the order of rows with equal keys. *)
Theorem top_n_size_and_order (n : nat) :
  (forall final_df,
     (exists out, Momentum.top_n n final_df out) /\
     forall out,
       Momentum.top_n n final_df out ->
       length out = Nat.min n (length final_df) /\
       (exists rest,
          Permutation (out ++ rest) (labelled final_df) /\
          descending_na_last
            (fun x => Momentum.One_Year_Price_Return (snd x)) (out ++ rest)) /\
       ((length final_df <= n)%nat -> Permutation out (labelled final_df))) /\
  (forall hqm_df,
     hqm_df <> [] ->
     (exists out, Momentum.best_n n hqm_df out) /\
     forall out,
       Momentum.best_n n hqm_df out ->
       length out = Nat.min n (length hqm_df) /\
       (exists rest,
          Permutation (out ++ rest) hqm_df /\
          descending_na_last Momentum.score_key (out ++ rest)) /\
       ((length hqm_df <= n)%nat -> Permutation out hqm_df)) /\
  (forall out, ~ Momentum.best_n n [] out) /\
  (forall e, Momentum.best_n_raises [] e <-> e = KeyError "HQM Score").
Proof.
  split; [|split; [|split]].
  - intros final_df. split.
    + destruct (sort_values_total Momentum.One_Year_Price_Return quicksort
                  final_df eq_refl) as [sorted Hsort].
      exists (head n sorted), sorted. split; [assumption|reflexivity].
    + intros out (sorted & Hsort & ->).
      eapply head_of_sorted. eassumption.
  - intros hqm_df Hne. split.
    + destruct (sort_values_total Momentum.score_key quicksort hqm_df eq_refl)
        as [sorted Hsort].
      exists (map snd (head n sorted)). split; [assumption|].
      exists sorted. split; [assumption|reflexivity].
    + intros out (_ & sorted & Hsort & ->).
      destruct (head_of_sorted Momentum.score_key _ n _ _ Hsort)
        as (Hlen & (rest & Hperm & Hdesc) & Hall).
      split; [rewrite length_map; assumption|]. split.
      * exists (map snd rest). rewrite <- map_app. split.
        -- rewrite <- (labelled_rows hqm_df). apply Permutation_map.
           assumption.
        -- unfold descending_na_last in *.
           apply (StronglySorted_fmap snd
                    (fun x y => ranks_before (Momentum.score_key (snd x))
                                             (Momentum.score_key (snd y))));
             [tauto|assumption].
      * intros Hn. rewrite <- (labelled_rows hqm_df).
        apply Permutation_map. apply Hall. assumption.
  - intros out (Hne & _). apply Hne. reflexivity.
  - intros e. unfold Momentum.best_n_raises. split; [tauto|].
    intros ->. split; reflexivity.
Qed.

End TopRows.

Lemma top_n_size_and_order_witness :
  let A := Momentum.Row "A" (Some 100%Q) (Some (1#2)%Q) NA in
  let B := Momentum.Row "B" (Some 100%Q) (Some (1#10)%Q) NA in
  let C := Momentum.Row "C" (Some 100%Q) (Some (3#10)%Q) NA in
  let hqm_df :=
    [Momentum.set_HQM_Score (Val (1#2)%Q)
       (fetched_row "A" (Some (1#2)) (Some (1#4)) (Some (1#8)) (Some (1#16)))]%Q in
  (Momentum.top_n 2 [A; B; C] [(0%nat, A); (2%nat, C)] /\
   length [(0%nat, A); (2%nat, C)] = Nat.min 2 (length [A; B; C])) /\
  hqm_df <> [] /\
  exists out, Momentum.best_n 2 hqm_df out.
Proof.
  intros A B C hqm_df.
  assert (H : Momentum.top_n 2 [A; B; C] [(0%nat, A); (2%nat, C)]).
  { exists ([(0%nat, A); (2%nat, C); (1%nat, B)]
            ++ List.filter (Pandas.isna Momentum.One_Year_Price_Return)
                 (Pandas.labelled [A; B; C])).
    split; [|reflexivity]. constructor.
    - cbn. apply perm_skip. apply perm_swap.
    - repeat constructor; cbn; discriminate.
    - discriminate. }
  assert (Hne : hqm_df <> []) by discriminate.
  split; [split; [exact H|]|split; [exact Hne|]].
  - apply (proj2 (proj1 (top_n_size_and_order 2) [A; B; C]) _ H).
  - apply (proj1 (proj1 (proj2 (top_n_size_and_order 2)) hqm_df Hne)).
Defined.

(** A list is a rearrangement of what sorting it by label gives. *)
Lemma permutation_by_label {R} (l target : list (nat * R)) :
  @merge_sort _ by_label by_label_dec l = target -> Permutation l target.
Proof. intros <-. symmetry. apply merge_sort_Permutation. Qed.

(** C6 as the spec words it fails on ties.  Eighteen rows, the first nine
    with the one-year return 0.1 and the last nine with 0.2: the result
    below is one the screen allows, and the one that numpy's scalar
    quicksort gives (an introsort that sorts by insertion, and so leaves
    ties in place, only up to 16 items; pandas sorts the reversed column
    and reverses the result).  The rows with return 0.2 come first, but
    neither they nor the rows with return 0.1 are in their original order:
    label 16 comes before label 15.  And in the selection by HQM score a
    universe smaller than [n] is not always returned without error: for
    the frame without rows the selection has no result, the sort raises
    [KeyError]. *)
Lemma top_n_tie_order_not_kept :
  let tickers :=
    ["A"; "AAL"; "AAP"; "AAPL"; "ABBV"; "ABC"; "ABMD"; "ABT"; "ACN";
     "ADBE"; "ADI"; "ADM"; "ADP"; "ADSK"; "AEE"; "AEP"; "AES"; "AFL"]%string in
  let row i :=
    Momentum.Row (tickers !!! i) (Some 100%Q)
      (Some (if (i <? 9)%nat then (1#10)%Q else (1#5)%Q)) NA in
  let final_df := map row (seq 0 18) in
  let out :=
    map (fun i => (i, row i))
        [9; 10; 16; 15; 14; 13; 12; 11; 17; 1; 8; 7; 6; 5; 4; 3; 2; 0]%nat in
  Momentum.remove_low_momentum final_df out /\
  ~ Pandas.keeps_tie_order Momentum.One_Year_Price_Return out /\
  (forall out', ~ Momentum.select_best [] out') /\
  Momentum.best_n_raises [] (KeyError "HQM Score").
Proof.
  intros tickers row final_df out. split; [|split; [|split]].
  - exists (out ++ List.filter (Pandas.isna Momentum.One_Year_Price_Return)
                     (Pandas.labelled final_df)).
    split; [|vm_compute; reflexivity]. constructor.
    + apply permutation_by_label. vm_compute. reflexivity.
    + repeat constructor; vm_compute; discriminate.
    + discriminate.
  - intros H.
    specialize (H 2%nat 3%nat (16%nat, row 16%nat) (15%nat, row 15%nat)
                  ltac:(lia) eq_refl eq_refl).
    cbn in H. specialize (H ltac:(reflexivity)). lia.
  - intros out' (Hne & _). apply Hne. reflexivity.
  - split; reflexivity.
Qed.

(** ** Missing returns *)

Section MissingReturns.
Import Scipy Momentum.
Local Open Scope Q_scope.



End MissingReturns.



(** ** The scenarios of the specification *)

(** Five tickers in batches of two. *)
Example batch_of_five :
  EqualWeight.chucks ["A"; "AAL"; "AAP"; "AAPL"; "ABBV"]%string 2
  = Ok [["A"; "AAL"]; ["AAP"; "AAPL"]; ["ABBV"]]%string.
Proof. reflexivity. Qed.

(** A portfolio of 10000 over four rows priced 2500.0: one share each. *)
Example four_rows_one_share_each :
  let final_df :=
    map (fun t => EqualWeight.Row t (Some 2500%Q) None NA)
        ["A"; "AAL"; "AAP"; "AAPL"]%string in
  exists out,
    EqualWeight.allocate 10000%Q final_df = Ok out /\
    map EqualWeight.Number_of_Shares_to_Buy out
    = [Val 1; Val 1; Val 1; Val 1]%Z.
Proof. eexists. split; vm_compute; reflexivity. Qed.

(** A symbol string read back. *)
Example symbols_read_back :
  split "," (join "," ["A"; "AAL"; "AAP"]%string) = ["A"; "AAL"; "AAP"]%string.
Proof. apply split_join; [discriminate|repeat constructor]. Qed.

(** * Further properties of the scripts *)

(** ** Batcher: where a ticker goes *)

Section BatcherIndex.
Context {A : Type}.
Implicit Types (lst : list A) (n i : nat).

Lemma slice_lookup lst k n j :
  (j < n)%nat -> slice lst (k * n) (k * n + n) !! j = lst !! (k * n + j)%nat.
Proof.
  intros Hj. unfold slice. replace (k * n + n - k * n)%nat with n by lia.
  rewrite lookup_take_lt by assumption. apply lookup_drop.
Qed.

(** The batcher makes [ceil(len / n)] chunks, and the ticker at position
    [i] of the list is item [i mod n] of chunk [i / n]. *)
Theorem batcher_chunk_of_index lst n :
  (0 < n)%nat ->
  exists cs,
    EqualWeight.chucks lst n = Ok cs /\
    Momentum.chunks lst n = Ok cs /\
    length cs = ((length lst + n - 1) / n)%nat /\
    forall i x,
      lst !! i = Some x ->
      exists c, cs !! (i / n)%nat = Some c /\ c !! (i mod n)%nat = Some x.
Proof.
  intros Hn. eexists. split; [apply chucks_pieces; assumption|].
  split; [rewrite chunks_chucks; apply chucks_pieces; assumption|].
  split.
  { rewrite !length_map, length_seq. unfold range_length.
    rewrite Nat.sub_0_r. reflexivity. }
  intros i x Hx.
  assert (Hi : (i < length lst)%nat) by (eapply lookup_lt_Some; eassumption).
  assert (Hk : (i / n < range_length 0 (length lst) n)%nat).
  { apply Nat.Div0.div_lt_upper_bound.
    pose proof (range_length_cover (length lst) n Hn). lia. }
  exists (slice lst (i / n * n) (i / n * n + n)). split.
  - rewrite map_map, list_lookup_fmap.
    rewrite (lookup_seq_lt _ _ _ Hk). reflexivity.
  - rewrite slice_lookup by (apply Nat.mod_upper_bound; lia).
    rewrite <- Hx. f_equal. pose proof (Nat.div_mod_eq i n). lia.
Qed.

End BatcherIndex.

Lemma batcher_chunk_of_index_witness :
  (0 < 2)%nat /\
  exists cs,
    EqualWeight.chucks ["A"; "AAL"; "AAP"; "AAPL"; "ABBV"]%string 2 = Ok cs /\
    length cs = 3%nat.
Proof.
  split; [lia|].
  destruct (batcher_chunk_of_index ["A"; "AAL"; "AAP"; "AAPL"; "ABBV"]%string 2
              ltac:(lia)) as (cs & Hrun & _ & Hlen & _).
  exists cs. split; [exact Hrun|exact Hlen].
Defined.

(** ** Row collection: from the ticker list to the frame *)

Section Collect.
Context {V Rw : Type}.
Variable fetch : string -> gmap string V.
Variable mk : string -> V -> Rw.
Variable step : gmap string V -> string -> list Rw -> result (list Rw).
Hypothesis step_lookup : forall data symbol df,
  step data symbol df =
  match data !! symbol with
  | None => Raise (KeyError symbol)
  | Some d => Ok (df ++ [mk symbol d])
  end.

Lemma tag_rows g groups syms rows :
  (forall s, s ∈ syms -> s ∈ g) ->
  Forall2 (fun s r => exists d, fetch (join "," g) !! s = Some d /\ r = mk s d)
          syms rows ->
  Forall2
    (fun s r =>
       exists g' d,
         g' ∈ g :: groups /\ s ∈ g' /\ fetch (join "," g') !! s = Some d /\
         r = mk s d)
    syms rows.
Proof.
  intros Hsub Hrows.
  induction Hrows as [|s r ss rs (d & Hd & ->) _ IH]; constructor.
  - exists g, d. repeat split; try assumption.
    + apply list_elem_of_here.
    + apply Hsub, list_elem_of_here.
  - apply IH. intros s' Hs'. apply Hsub, list_elem_of_further. assumption.
Qed.

Lemma collect_groups groups : forall df,
  Forall (fun g => g <> [] /\ Forall (fun s => comma_free s = true) g /\
                   Forall (present (fetch (join "," g))) g) groups ->
  exists rows,
    for_each (fun str => for_each (step (fetch str)) (split "," str))
             (map (join ",") groups) df
    = Ok (df ++ rows) /\
    Forall2
      (fun s r =>
         exists g d,
           g ∈ groups /\ s ∈ g /\ fetch (join "," g) !! s = Some d /\
           r = mk s d)
      (concat groups) rows.
Proof.
  induction groups as [|g groups IH]; intros df Hall.
  - exists []. cbn. rewrite app_nil_r. split; [reflexivity|constructor].
  - inversion Hall as [|? ? (Hne & Hfree & Hpres) Hrest]; subst.
    cbn [map for_each]. rewrite (split_join g Hne Hfree).
    destruct (append_present (fetch (join "," g)) mk
                (step (fetch (join "," g))) (step_lookup _) g df Hpres)
      as (rows1 & Hrun1 & Hrows1).
    rewrite Hrun1. cbn [bind].
    destruct (IH (df ++ rows1) Hrest) as (rows2 & Hrun2 & Hrows2).
    exists (rows1 ++ rows2). rewrite Hrun2, <- app_assoc.
    split; [reflexivity|]. cbn [concat]. apply Forall2_app.
    + apply tag_rows; [tauto|assumption].
    + eapply Forall2_impl; [exact Hrows2|].
      intros s r (g' & d & Hg' & Hs & Hd & ->). exists g', d.
      repeat split; try assumption. apply list_elem_of_further. assumption.
Qed.

Lemma collect_absent before pre s post after : forall df,
  Forall (fun g => g <> [] /\ Forall (fun s => comma_free s = true) g /\
                   Forall (present (fetch (join "," g))) g) before ->
  Forall (fun s' => comma_free s' = true) (pre ++ s :: post) ->
  Forall (present (fetch (join "," (pre ++ s :: post)))) pre ->
  fetch (join "," (pre ++ s :: post)) !! s = None ->
  for_each (fun str => for_each (step (fetch str)) (split "," str))
           (map (join ",") (before ++ (pre ++ s :: post) :: after)) df
  = Raise (KeyError s).
Proof.
  intros df Hbefore Hfree Hpre Hs.
  destruct (collect_groups before df Hbefore) as (rows & Hrun & _).
  rewrite map_app. revert Hrun. generalize (df ++ rows). generalize df.
  generalize (map (join ",") before). clear Hbefore.
  intros strs. induction strs as [|str strs IH]; intros df0 df1.
  - cbn [for_each app map]. intros [= <-].
    rewrite split_join by (try assumption; destruct pre; discriminate).
    rewrite (append_absent (fetch (join "," (pre ++ s :: post))) mk
               (step (fetch (join "," (pre ++ s :: post)))) (step_lookup _)
               pre s post df0 Hpre Hs).
    reflexivity.
  - cbn [for_each app]. destruct (for_each _ (split "," str) df0) as [df2|];
      cbn [bind]; [|discriminate].
    apply IH.
Qed.

End Collect.

Lemma chucks_groups {A} (lst : list A) n cs :
  (0 < n)%nat -> EqualWeight.chucks lst n = Ok cs ->
  concat cs = lst /\ Forall (fun c => c <> []) cs.
Proof.
  intros Hn Hrun. rewrite chucks_pieces in Hrun by assumption.
  injection Hrun as <-. split.
  - apply concat_pieces, range_length_cover. assumption.
  - apply Forall_lookup. intros k c Hk.
    apply pieces_lookup in Hk as [Hk ->]. intros E.
    apply (f_equal length) in E. rewrite slice_length in E. cbn in E.
    pose proof (range_length_inside (length lst) n k Hn Hk). lia.
Qed.

Lemma groups_ready {V} (fetch : string -> gmap string V) tickers groups :
  Forall (fun s => comma_free s = true) tickers ->
  EqualWeight.chucks tickers 100 = Ok groups ->
  Forall (fun g => Forall (present (fetch (join "," g))) g) groups ->
  concat groups = tickers /\
  Forall (fun g => g <> [] /\ Forall (fun s => comma_free s = true) g /\
                   Forall (present (fetch (join "," g))) g) groups.
Proof.
  intros Hfree Hrun Hpres.
  destruct (chucks_groups tickers 100 groups ltac:(lia) Hrun) as [Hcat Hne].
  split; [assumption|].
  rewrite <- Hcat in Hfree. apply Forall_concat in Hfree.
  rewrite Forall_lookup in Hne, Hfree, Hpres |- *.
  intros k g Hg. split; [|split]; eauto.
Qed.

(** When the response to every batch has all the symbols of the batch, and
    no ticker holds a comma, the first script's collection returns a frame
    with one row per ticker, in the order of the ticker list: the row of a
    ticker holds the price and the market capitalization that the response
    to a batch holding the ticker gives for it, and ['N/A'] as share
    count. *)
Theorem equal_weight_frame_follows_tickers
    (fetch : string -> gmap string EqualWeight.quote)
    (tickers : list string) (groups : list (list string)) :
  Forall (fun s => comma_free s = true) tickers ->
  EqualWeight.chucks tickers 100 = Ok groups ->
  Forall (fun g => Forall (present (fetch (join "," g))) g) groups ->
  exists final_df,
    EqualWeight.build_final_df fetch tickers = Ok final_df /\
    map EqualWeight.Ticker final_df = tickers /\
    Forall2
      (fun s r =>
         exists g q,
           g ∈ groups /\ s ∈ g /\ fetch (join "," g) !! s = Some q /\
           r = EqualWeight.Row s (EqualWeight.latestPrice q)
                 (EqualWeight.marketCap q) NA)
      tickers final_df.
Proof.
  intros Hfree Hrun Hpres.
  destruct (groups_ready fetch tickers groups Hfree Hrun Hpres) as [Hcat Hall].
  destruct (collect_groups fetch
              (fun symbol q => EqualWeight.Row symbol
                 (EqualWeight.latestPrice q) (EqualWeight.marketCap q) NA)
              (fun data => EqualWeight.append_row data)
              ltac:(reflexivity) groups [] Hall) as (rows & Hloop & Hrows).
  exists rows. unfold EqualWeight.build_final_df. rewrite Hrun. cbn [bind].
  split; [exact Hloop|]. rewrite Hcat in Hrows. split.
  - clear -Hrows. induction Hrows as [|s r ? ? (g & q & _ & _ & _ & ->) _ IH];
      [reflexivity|]. cbn. rewrite IH. reflexivity.
  - exact Hrows.
Qed.

Lemma equal_weight_frame_follows_tickers_witness :
  let quotes : gmap string EqualWeight.quote :=
    {[ "AAPL"%string := EqualWeight.Quote (Some 150%Q) (Some 2000%Q);
       "GOOG"%string := EqualWeight.Quote (Some 90%Q) None ]} in
  exists final_df,
    EqualWeight.build_final_df (fun _ => quotes) ["AAPL"; "GOOG"]%string
    = Ok final_df /\
    map EqualWeight.Ticker final_df = ["AAPL"; "GOOG"]%string.
Proof.
  intros quotes.
  destruct (equal_weight_frame_follows_tickers (fun _ => quotes)
              ["AAPL"; "GOOG"]%string [["AAPL"; "GOOG"]%string])
    as (final_df & Hrun & Hcol & _).
  - repeat constructor.
  - reflexivity.
  - repeat constructor; eexists; vm_compute; reflexivity.
  - exists final_df. split; assumption.
Defined.

(** The same for the two collections of the second script: the screen's
    frame holds the price and the one-year return of each ticker, the
    strategy's frame its price and four returns, with ['N/A'] in the
    columns still to fill. *)
Theorem momentum_frames_follow_tickers
    (fetch : string -> gmap string Momentum.stock)
    (tickers : list string) (groups : list (list string)) :
  Forall (fun s => comma_free s = true) tickers ->
  Momentum.chunks tickers 100 = Ok groups ->
  Forall (fun g => Forall (present (fetch (join "," g))) g) groups ->
  exists final_df hqm_df,
    Momentum.build_final_df fetch tickers = Ok final_df /\
    Momentum.build_hqm_df fetch tickers = Ok hqm_df /\
    map Momentum.Ticker final_df = tickers /\
    map Momentum.hqm_Ticker hqm_df = tickers /\
    Forall2
      (fun s r =>
         exists g d,
           g ∈ groups /\ s ∈ g /\ fetch (join "," g) !! s = Some d /\
           r = Momentum.Row s (Momentum.price d)
                 (Momentum.year1ChangePercent (Momentum.stock_stats d)) NA)
      tickers final_df /\
    Forall2
      (fun s r =>
         exists g d,
           g ∈ groups /\ s ∈ g /\ fetch (join "," g) !! s = Some d /\
           r = Momentum.HqmRow s (Momentum.price d) NA
                 (Momentum.year1ChangePercent (Momentum.stock_stats d)) NA
                 (Momentum.month6ChangePercent (Momentum.stock_stats d)) NA
                 (Momentum.month3ChangePercent (Momentum.stock_stats d)) NA
                 (Momentum.month1ChangePercent (Momentum.stock_stats d)) NA NA)
      tickers hqm_df.
Proof.
  intros Hfree Hrun Hpres. rewrite chunks_chucks in Hrun.
  destruct (groups_ready fetch tickers groups Hfree Hrun Hpres) as [Hcat Hall].
  destruct (collect_groups fetch
              (fun symbol d => Momentum.Row symbol (Momentum.price d)
                 (Momentum.year1ChangePercent (Momentum.stock_stats d)) NA)
              (fun data => Momentum.append_row data)
              ltac:(reflexivity) groups [] Hall) as (rows & Hloop & Hrows).
  destruct (collect_groups fetch
              (fun symbol d =>
                 Momentum.HqmRow symbol (Momentum.price d) NA
                   (Momentum.year1ChangePercent (Momentum.stock_stats d)) NA
                   (Momentum.month6ChangePercent (Momentum.stock_stats d)) NA
                   (Momentum.month3ChangePercent (Momentum.stock_stats d)) NA
                   (Momentum.month1ChangePercent (Momentum.stock_stats d)) NA NA)
              (fun data => Momentum.hqm_append_row data)
              ltac:(reflexivity) groups [] Hall) as (hrows & Hhloop & Hhrows).
  exists rows, hrows.
  unfold Momentum.build_final_df, Momentum.build_hqm_df.
  rewrite chunks_chucks, Hrun. cbn [bind].
  split; [exact Hloop|]. split; [exact Hhloop|].
  rewrite Hcat in Hrows, Hhrows. split; [|split; [|split; assumption]].
  - clear -Hrows. induction Hrows as [|s r ? ? (g & q & _ & _ & _ & ->) _ IH];
      [reflexivity|]. cbn. rewrite IH. reflexivity.
  - clear -Hhrows.
    induction Hhrows as [|s r ? ? (g & q & _ & _ & _ & ->) _ IH];
      [reflexivity|]. cbn. rewrite IH. reflexivity.
Qed.

Lemma momentum_frames_follow_tickers_witness :
  let stocks : gmap string Momentum.stock :=
    {[ "AAPL"%string :=
         Momentum.Stock (Some 150%Q)
           (Momentum.Stats (Some (1#2)%Q) None (Some (1#8)%Q) None);
       "GOOG"%string :=
         Momentum.Stock (Some 90%Q)
           (Momentum.Stats (Some (1#4)%Q) None None None) ]} in
  exists final_df hqm_df,
    Momentum.build_final_df (fun _ => stocks) ["AAPL"; "GOOG"]%string
    = Ok final_df /\
    Momentum.build_hqm_df (fun _ => stocks) ["AAPL"; "GOOG"]%string
    = Ok hqm_df /\
    map Momentum.Ticker final_df = ["AAPL"; "GOOG"]%string /\
    map Momentum.hqm_Ticker hqm_df = ["AAPL"; "GOOG"]%string.
Proof.
  intros stocks.
  destruct (momentum_frames_follow_tickers (fun _ => stocks)
              ["AAPL"; "GOOG"]%string [["AAPL"; "GOOG"]%string])
    as (final_df & hqm_df & Hrun & Hhrun & Hcol & Hhcol & _).
  - repeat constructor.
  - reflexivity.
  - repeat constructor; eexists; vm_compute; reflexivity.
  - exists final_df, hqm_df. repeat split; assumption.
Defined.

(** A symbol missing from the response to its batch ends the whole
    collection: when the earlier batches are answered in full and the
    symbols before it in its own batch are answered, all three collections
    raise [KeyError] for that symbol, and the rows gathered so far are
    lost. *)
Theorem collection_stops_at_missing_symbol
    (tickers : list string) (before after : list (list string))
    (pre post : list string) (s : string) :
  Forall (fun s' => comma_free s' = true) tickers ->
  EqualWeight.chucks tickers 100 = Ok (before ++ (pre ++ s :: post) :: after) ->
  (forall fetch : string -> gmap string EqualWeight.quote,
     Forall (fun g => Forall (present (fetch (join "," g))) g) before ->
     Forall (present (fetch (join "," (pre ++ s :: post)))) pre ->
     fetch (join "," (pre ++ s :: post)) !! s = None ->
     EqualWeight.build_final_df fetch tickers = Raise (KeyError s)) /\
  (forall fetch : string -> gmap string Momentum.stock,
     Forall (fun g => Forall (present (fetch (join "," g))) g) before ->
     Forall (present (fetch (join "," (pre ++ s :: post)))) pre ->
     fetch (join "," (pre ++ s :: post)) !! s = None ->
     Momentum.build_final_df fetch tickers = Raise (KeyError s) /\
     Momentum.build_hqm_df fetch tickers = Raise (KeyError s)).
Proof.
  intros Hfree Hrun.
  destruct (chucks_groups tickers 100 _ ltac:(lia) Hrun) as [Hcat Hne].
  rewrite <- Hcat in Hfree. apply Forall_concat in Hfree.
  apply Forall_app in Hfree as [Hfree_before Hfree_rest].
  apply Forall_app in Hne as [Hne_before _].
  inversion Hfree_rest as [|? ? Hfree_g _]; subst.
  assert (Hready : forall V (fetch : string -> gmap string V),
            Forall (fun g => Forall (present (fetch (join "," g))) g) before ->
            Forall (fun g => g <> [] /\
                      Forall (fun s => comma_free s = true) g /\
                      Forall (present (fetch (join "," g))) g) before).
  { intros V fetch Hpres.
    rewrite Forall_lookup in Hne_before, Hfree_before, Hpres |- *.
    intros k g Hg. split; [|split]; eauto. }
  split.
  - intros fetch Hbefore Hpre Hs. unfold EqualWeight.build_final_df.
    rewrite Hrun. cbn [bind].
    apply (collect_absent fetch
             (fun symbol q => EqualWeight.Row symbol
                (EqualWeight.latestPrice q) (EqualWeight.marketCap q) NA)
             (fun data => EqualWeight.append_row data) ltac:(reflexivity));
      auto.
  - intros fetch Hbefore Hpre Hs.
    unfold Momentum.build_final_df, Momentum.build_hqm_df.
    rewrite chunks_chucks, Hrun. cbn [bind]. split.
    + apply (collect_absent fetch
               (fun symbol d => Momentum.Row symbol (Momentum.price d)
                  (Momentum.year1ChangePercent (Momentum.stock_stats d)) NA)
               (fun data => Momentum.append_row data) ltac:(reflexivity));
        auto.
    + apply (collect_absent fetch
               (fun symbol d =>
                  Momentum.HqmRow symbol (Momentum.price d) NA
                    (Momentum.year1ChangePercent (Momentum.stock_stats d)) NA
                    (Momentum.month6ChangePercent (Momentum.stock_stats d)) NA
                    (Momentum.month3ChangePercent (Momentum.stock_stats d)) NA
                    (Momentum.month1ChangePercent (Momentum.stock_stats d)) NA
                    NA)
               (fun data => Momentum.hqm_append_row data) ltac:(reflexivity));
        auto.
Qed.

Lemma collection_stops_at_missing_symbol_witness :
  let quotes : gmap string EqualWeight.quote :=
    {[ "AAPL"%string := EqualWeight.Quote (Some 150%Q) (Some 2000%Q);
       "GOOG"%string := EqualWeight.Quote (Some 90%Q) None ]} in
  EqualWeight.build_final_df (fun _ => quotes) ["AAPL"; "MSFT"; "GOOG"]%string
  = Raise (KeyError "MSFT").
Proof.
  intros quotes.
  apply (proj1 (collection_stops_at_missing_symbol
                  ["AAPL"; "MSFT"; "GOOG"]%string [] []
                  ["AAPL"%string] ["GOOG"%string] "MSFT"%string
                  ltac:(repeat constructor) eq_refl)).
  - constructor.
  - repeat constructor. eexists. vm_compute. reflexivity.
  - vm_compute. reflexivity.
Defined.

(** The symbol strings of the batches read back as the batches, for tickers
    without a comma: what [symbol_string.split(',')] yields is the chunk the
    string was joined from. *)
Theorem symbol_strings_round_trip (tickers : list string) (n : nat)
    (groups : list (list string)) :
  (0 < n)%nat ->
  Forall (fun s => comma_free s = true) tickers ->
  EqualWeight.chucks tickers n = Ok groups ->
  map (split ",") (EqualWeight.symbol_strings groups) = groups /\
  map (split ",") (Momentum.symbol_strings groups) = groups /\
  concat (map (split ",") (EqualWeight.symbol_strings groups)) = tickers.
Proof.
  intros Hn Hfree Hrun.
  destruct (chucks_groups tickers n groups Hn Hrun) as [Hcat Hne].
  assert (E : map (split ",") (map (join ",") groups) = groups).
  { rewrite <- Hcat in Hfree. apply Forall_concat in Hfree.
    clear Hrun Hcat. induction groups as [|g groups IH]; [reflexivity|].
    inversion Hne; inversion Hfree; subst. cbn [map].
    rewrite split_join by assumption. f_equal. apply IH; assumption. }
  unfold EqualWeight.symbol_strings, Momentum.symbol_strings.
  rewrite E. auto.
Qed.

Lemma symbol_strings_round_trip_witness :
  (0 < 2)%nat /\
  map (split ",")
      (EqualWeight.symbol_strings [["A"; "AAL"]; ["AAP"]]%string)
  = [["A"; "AAL"]; ["AAP"]]%string.
Proof.
  split; [lia|].
  apply (symbol_strings_round_trip ["A"; "AAL"; "AAP"]%string 2
           [["A"; "AAL"]; ["AAP"]]%string);
    [lia|repeat constructor|reflexivity].
Defined.

(** ** The prompts *)

(** The prompt of the first script converts what it reads: a first line
    that is a number is the portfolio value and no second line is read; if
    it is not, the message is printed and the second line is converted,
    and a second line that is not a number either raises [ValueError] at
    the prompt.  With no line left to read, [input] raises [EOFError]. *)
Theorem equal_weight_prompt_converts (float : string -> option Q)
    (first second : string) (rest printed : list string) :
  (forall val,
     float first = Some val ->
     EqualWeight.read_val float (World (first :: rest) printed)
     = Ok (val, World rest (printed ++ [EqualWeight.prompt]))) /\
  (float first = None ->
   (forall val,
      float second = Some val ->
      EqualWeight.read_val float (World (first :: second :: rest) printed)
      = Ok (val,
            World rest
              (printed ++ [EqualWeight.prompt] ++
               ["That's not a number! \nPlease enter an integer:"%string] ++
               [EqualWeight.prompt]))) /\
   (float second = None ->
    EqualWeight.read_val float (World (first :: second :: rest) printed)
    = Raise ValueError) /\
   EqualWeight.read_val float (World [first] printed) = Raise EOFError) /\
  EqualWeight.read_val float (World [] printed) = Raise EOFError.
Proof.
  split; [|split; [|reflexivity]].
  - intros val Hval. unfold EqualWeight.read_val, input. cbn. rewrite Hval.
    reflexivity.
  - intros Hfirst. split; [|split].
    + intros val Hval. unfold EqualWeight.read_val, input. cbn.
      rewrite Hfirst. cbn. rewrite Hval, <- !app_assoc. reflexivity.
    + intros Hsecond. unfold EqualWeight.read_val, input. cbn.
      rewrite Hfirst. cbn. rewrite Hsecond. reflexivity.
    + unfold EqualWeight.read_val, input. cbn. rewrite Hfirst. reflexivity.
Qed.

Lemma equal_weight_prompt_converts_witness :
  float_of_digits "ten thousand" = None /\
  float_of_digits "lots" = None /\
  EqualWeight.read_val float_of_digits
    (World ["ten thousand"; "lots"; "10000"]%string [])
  = Raise ValueError.
Proof.
  split; [reflexivity|]. split; [reflexivity|].
  apply (proj1 (proj2 (proj1 (proj2 (equal_weight_prompt_converts
           float_of_digits "ten thousand"%string "lots"%string
           ["10000"%string] [])) eq_refl)) eq_refl).
Defined.

(** [portfolio_input] of the second script never raises [ValueError] and
    never hands on a converted value: when it returns, [portfolio_size] is
    one of the first two lines as typed, the first if it is a number and
    the second otherwise, and exactly those lines are used up; the only
    exception it can raise is the [EOFError] of [input]. *)
Theorem portfolio_input_returns_a_line (float : string -> option Q) (w : world) :
  (forall portfolio_size w',
     Momentum.portfolio_input float w = Ok (portfolio_size, w') ->
     (float portfolio_size <> None /\
      stdin w = portfolio_size :: stdin w') \/
     (exists first,
        float first = None /\
        stdin w = first :: portfolio_size :: stdin w')) /\
  (forall e, Momentum.portfolio_input float w = Raise e -> e = EOFError).
Proof.
  unfold Momentum.portfolio_input, input. destruct w as [[|first rest] printed];
    cbn.
  { split; [discriminate|]. intros e [= <-]. reflexivity. }
  destruct (float first) as [val|] eqn:Hfirst; cbn.
  - split; [|discriminate]. intros s w' [= <- <-]. left. cbn.
    split; [congruence|reflexivity].
  - destruct rest as [|second rest]; cbn.
    + split; [discriminate|]. intros e [= <-]. reflexivity.
    + split; [|discriminate]. intros s w' [= <- <-]. right.
      exists first. cbn. split; [assumption|reflexivity].
Qed.

Lemma portfolio_input_returns_a_line_witness :
  Momentum.portfolio_input float_of_digits (World ["abc"; "xyz"]%string [])
  = Ok ("xyz"%string,
        World [] ["Enter the value of your portfolio:";
                  "That's not a number! \n Try again:";
                  "Enter the value of your portfolio:"]%string) /\
  exists first,
    float_of_digits first = None /\
    stdin (World ["abc"; "xyz"]%string []) = first :: "xyz"%string :: [].
Proof.
  assert (H : Momentum.portfolio_input float_of_digits
                (World ["abc"; "xyz"]%string [])
              = Ok ("xyz"%string,
                    World [] ["Enter the value of your portfolio:";
                              "That's not a number! \n Try again:";
                              "Enter the value of your portfolio:"]%string))
    by reflexivity.
  split; [exact H|].
  destruct (proj1 (portfolio_input_returns_a_line float_of_digits
                     (World ["abc"; "xyz"]%string [])) _ _ H)
    as [[Hnum _]|Hsecond].
  - exfalso. apply Hnum. reflexivity.
  - exact Hsecond.
Defined.

(** ** Allocators: a price of zero *)

Section ZeroPrice.
Import EqualWeight Binary64.
Local Open Scope Q_scope.

Lemma traverse_stops {X Y} (F : X -> result Y) (e0 : exn) pre x post :
  Forall (fun x' => F x' = Raise e0 \/ exists y, F x' = Ok y) pre ->
  F x = Raise e0 ->
  traverse F (pre ++ x :: post) = Raise e0.
Proof.
  intros Hpre Hx. induction Hpre as [|x' pre [Hr|[y Hy]] _ IH]; cbn.
  - rewrite Hx. reflexivity.
  - rewrite Hr. reflexivity.
  - rewrite Hy. cbn. rewrite IH. reflexivity.
Qed.

(** In a frame where every row has a price, the ['Stock Price'] column is
    float64 and a price of zero does not raise [ZeroDivisionError]: the
    quotient of the position size, which is positive in the normal range,
    by a [numpy.float64] zero is an infinity, and [math.floor] of it raises
    [OverflowError].  The binary64 share loop of the first script ends that
    way whenever some row is priced zero and the rows before it have
    positive prices. *)
Theorem allocation_stops_at_zero_price (val : Q) (pre : list row) (r : row)
    (post : list row) (p : Q) :
  Forall (fun r' => positive_price (Stock_Price r')) pre ->
  Stock_Price r = Some p -> p == 0 ->
  Forall (fun r' => is_Some (Stock_Price r')) post ->
  min_normal * of_nat (length (pre ++ r :: post)) <= val ->
  allocate_binary64 val (pre ++ r :: post) = Raise OverflowError.
Proof.
  intros Hpre Hr Hp _ Hval.
  rewrite allocate_binary64_traverse by (destruct pre; discriminate).
  set (n := length (pre ++ r :: post)) in *.
  assert (Hn : 0 < of_nat n).
  { apply of_nat_positive. unfold n. rewrite length_app. cbn. lia. }
  assert (Hx : min_normal <= val / of_nat n).
  { apply Qle_shift_div_l; assumption. }
  destruct (round_normal _ Hx) as [Hlow _].
  assert (Hps : 0 < round (val / of_nat n)).
  { eapply Qlt_le_trans; [|exact Hlow]. apply Qmult_lt_0_compat.
    - apply Qlt_le_trans with min_normal; [reflexivity|assumption].
    - reflexivity. }
  apply Qeq_eq_bool in Hp.
  unfold of_Q. destruct (Qle_bool _ _).
  - apply traverse_stops.
    + eapply Forall_impl; [exact Hpre|]. intros r' (p' & Hr' & Hp'). left.
      unfold shares_of_binary64. rewrite Hr'. reflexivity.
    + unfold shares_of_binary64. rewrite Hr. reflexivity.
  - apply traverse_stops.
    + eapply Forall_impl; [exact Hpre|]. intros r' Hr'.
      destruct (shares_of_binary64_row (round (val / of_nat n)) r')
        as [H|(y & H & _)]; [apply Qlt_le_weak| | |]; eauto.
    + unfold shares_of_binary64. rewrite Hr. cbn [cell truediv].
      rewrite Hp.
      destruct (Qeq_bool (round (val / of_nat n)) 0) eqn:E; [|reflexivity].
      apply Qeq_bool_eq in E. rewrite E in Hps. exfalso. revert Hps.
      apply Qlt_irrefl.
Qed.

End ZeroPrice.

Lemma allocation_stops_at_zero_price_witness :
  let priced := EqualWeight.Row "A" (Some 7%Q) None NA in
  let free := EqualWeight.Row "AAL" (Some 0%Q) None NA in
  let other := EqualWeight.Row "AAP" (Some 3%Q) None NA in
  (Forall (fun r' => positive_price (EqualWeight.Stock_Price r')) [priced] /\
   Forall (fun r' => is_Some (EqualWeight.Stock_Price r')) [other] /\
   (Binary64.min_normal * of_nat (length ([priced] ++ free :: [other]))
    <= 1000)%Q) /\
  EqualWeight.allocate_binary64 1000%Q ([priced] ++ free :: [other])
  = Raise OverflowError.
Proof.
  intros priced free other.
  assert (Hpre : Forall (fun r' => positive_price (EqualWeight.Stock_Price r'))
                   [priced]).
  { repeat constructor. exists 7%Q. split; reflexivity. }
  assert (Hpost : Forall (fun r' => is_Some (EqualWeight.Stock_Price r'))
                    [other]).
  { repeat constructor. exists 3%Q. reflexivity. }
  assert (Hval : (Binary64.min_normal
                  * of_nat (length ([priced] ++ free :: [other])) <= 1000)%Q)
    by (vm_compute; discriminate).
  split; [split; [exact Hpre|split; [exact Hpost|exact Hval]]|].
  apply (allocation_stops_at_zero_price 1000%Q [priced] free [other] 0%Q
           Hpre eq_refl ltac:(reflexivity) Hpost Hval).
Defined.

(** ** Allocators: what is left unspent *)

Section Spending.
Import Binary64.
Local Open Scope Q_scope.

(** With positive prices and a position size in the normal range, the
    binary64 share loop of the first script changes nothing but the share
    counts, and what it leaves unspent is less than the sum of the prices
    and the rounding of its two divisions: the total cost is above the
    portfolio value times [(1 - 2^-53)^2] less the prices.  Up to that
    rounding no row could have been given one more share out of its own
    position. *)
Theorem equal_weight_leftover_below_prices (val : Q)
    (final_df : list EqualWeight.row) :
  final_df <> [] ->
  Forall (fun r => positive_price (EqualWeight.Stock_Price r)) final_df ->
  min_normal * of_nat (length final_df) <= val ->
  EqualWeight.allocate_binary64 val final_df = Raise OverflowError \/
  exists out,
    EqualWeight.allocate_binary64 val final_df = Ok out /\
    map EqualWeight.Ticker out = map EqualWeight.Ticker final_df /\
    map EqualWeight.Stock_Price out = map EqualWeight.Stock_Price final_df /\
    map EqualWeight.Market_Capitalization out
    = map EqualWeight.Market_Capitalization final_df /\
    val * (1 - unit_roundoff) * (1 - unit_roundoff) - total_price final_df
    < total_cost out.
Proof.
  intros Hne Hpos Hval.
  destruct (allocate_binary64_rows val final_df Hne Hpos Hval)
    as [Hraise|(out & Hrun & Hrows)]; [left; assumption|right].
  exists out. split; [assumption|].
  destruct (bought_columns _ _ _ Hrows) as (Ht & Hp & Hm).
  split; [assumption|]. split; [assumption|]. split; [assumption|].
  set (n := length final_df) in *.
  assert (Hn : 0 < of_nat n).
  { apply of_nat_positive. unfold n. destruct final_df; [congruence|cbn; lia]. }
  assert (Hx : min_normal <= val / of_nat n).
  { apply Qle_shift_div_l; assumption. }
  destruct (round_normal _ Hx) as [Hlow _].
  assert (Hd : 0 <= 1 - unit_roundoff) by discriminate.
  eapply Qle_lt_trans;
    [|apply (proj2 (bought_total_cost _ _ _ Hrows)); assumption].
  fold n. apply Qplus_le_l.
  apply Qle_trans
    with (of_nat n * (val / of_nat n * (1 - unit_roundoff)
                      * (1 - unit_roundoff))).
  - apply Qle_lteq. right. field. intros E. rewrite E in Hn.
    revert Hn. apply Qlt_irrefl.
  - apply Qmult_le_l; [assumption|].
    apply Qmult_le_compat_r; assumption.
Qed.

End Spending.

Lemma equal_weight_leftover_below_prices_witness :
  let final_df :=
    [EqualWeight.Row "A" (Some 3%Q) (Some 1000%Q) NA;
     EqualWeight.Row "AAL" (Some 7%Q) None NA] in
  (final_df <> [] /\
   Forall (fun r => positive_price (EqualWeight.Stock_Price r)) final_df /\
   (Binary64.min_normal * of_nat (length final_df) <= 100)%Q) /\
  (EqualWeight.allocate_binary64 100%Q final_df = Raise OverflowError \/
   exists out,
     EqualWeight.allocate_binary64 100%Q final_df = Ok out /\
     (100 * (1 - Binary64.unit_roundoff) * (1 - Binary64.unit_roundoff)
      - total_price final_df < total_cost out)%Q).
Proof.
  intros final_df.
  assert (Hne : final_df <> []) by discriminate.
  assert (Hpos : Forall (fun r => positive_price (EqualWeight.Stock_Price r))
                   final_df).
  { repeat constructor; eexists; (split; [reflexivity|reflexivity]). }
  assert (Hval : (Binary64.min_normal * of_nat (length final_df) <= 100)%Q)
    by (vm_compute; discriminate).
  split; [split; [exact Hne|split; [exact Hpos|exact Hval]]|].
  destruct (equal_weight_leftover_below_prices 100%Q final_df Hne Hpos Hval)
    as [Hraise|(out & Hrun & _ & _ & _ & Hleft)]; [left; assumption|right].
  exists out. split; assumption.
Defined.

(** ** The screen, from the sort to the share counts *)

Section ScreenAllocation.
Local Open Scope Q_scope.

(** The position size of the screen divides the portfolio by the number of
    rows kept, [min 50 (number of fetched rows)], not by the size of the
    universe: a kept row with a positive price gets
    [val / min(50, n) / price] shares. *)
Theorem screen_position_size (float : string -> option Q)
    (portfolio_size : string) (val : Q)
    (final_df : list Momentum.row) (kept out : list (nat * Momentum.row)) :
  float portfolio_size = Some val ->
  Momentum.remove_low_momentum final_df kept ->
  Momentum.allocate float portfolio_size kept = Ok out ->
  length out = Nat.min 50 (length final_df) /\
  forall i x p,
    kept !! i = Some x -> Momentum.Price (snd x) = Some p -> 0 < p ->
    exists x',
      out !! i = Some x' /\
      fst x' = fst x /\
      Momentum.Number_of_Shares_to_Buy (snd x')
      = Val (val / of_nat (Nat.min 50 (length final_df)) / p).
Proof.
  intros Hval (sorted & Hsort & ->) Hrun.
  destruct (head_of_sorted _ _ 50 _ _ Hsort) as (Hlen & _ & _).
  assert (Hne : Pandas.head 50 sorted <> []).
  { intros E. rewrite E in Hrun. unfold Momentum.allocate in Hrun.
    rewrite Hval in Hrun. cbn in Hrun. discriminate. }
  rewrite (momentum_allocate_traverse _ _ val) in Hrun by assumption.
  split.
  - rewrite <- Hlen. eapply traverse_ok_length. eassumption.
  - intros i x p Hx Hp Hpos.
    destruct (traverse_ok_lookup _ _ _ _ _ Hrun Hx) as (x' & Hx' & Hstep).
    exists x'. split; [assumption|].
    unfold quotient_of in Hstep. rewrite Hp in Hstep.
    cbn [number bind] in Hstep. rewrite truediv_pos in Hstep by assumption.
    injection Hstep as <-. rewrite <- Hlen. split; reflexivity.
Qed.

End ScreenAllocation.

Lemma screen_position_size_witness :
  let A := Momentum.Row "A" (Some 10%Q) (Some (1#2)%Q) NA in
  let B := Momentum.Row "B" (Some 10%Q) (Some (1#10)%Q) NA in
  exists out,
    Momentum.allocate float_of_digits "100" [(0%nat, A); (1%nat, B)] = Ok out /\
    length out = Nat.min 50 (length [A; B]).
Proof.
  intros A B.
  assert (Hkept : Momentum.remove_low_momentum [A; B] [(0%nat, A); (1%nat, B)]).
  { exists ([(0%nat, A); (1%nat, B)]
            ++ List.filter (Pandas.isna Momentum.One_Year_Price_Return)
                 (Pandas.labelled [A; B])).
    split; [|reflexivity]. constructor.
    - cbn. apply Permutation_refl.
    - repeat constructor; cbn; discriminate.
    - discriminate. }
  eexists. split; [vm_compute; reflexivity|].
  refine (proj1 (screen_position_size float_of_digits "100"%string 100%Q
                   [A; B] [(0%nat, A); (1%nat, B)] _ eq_refl Hkept _)).
  vm_compute. reflexivity.
Defined.

(** ** Ranking engine: the loops on their own *)

Section RankingLoops.
Import Momentum.
Local Open Scope Q_scope.












End RankingLoops.



(** ** Ranking engine: bounds and order of the scores *)

Section ScoreOrder.
Import Scipy Momentum.
Local Open Scope Q_scope.








End ScoreOrder.



(** ** The sorted frames: labels and ties *)

Section SortedFrames.
Import Pandas.
Local Open Scope Q_scope.

Lemma labelled_lookup {R} (df : list R) i :
  labelled df !! i = (fun r => (i, r)) <$> df !! i.
Proof. unfold labelled. apply list_lookup_imap. Qed.

Lemma elem_of_labelled {R} (df : list R) (x : nat * R) :
  x ∈ labelled df <-> df !! fst x = Some (snd x).
Proof.
  rewrite list_elem_of_lookup. split.
  - intros [i Hi]. rewrite labelled_lookup in Hi.
    destruct (df !! i) as [r|] eqn:Hr; [|discriminate].
    injection Hi as <-. exact Hr.
  - intros Hx. exists (fst x). rewrite labelled_lookup, Hx.
    destruct x; reflexivity.
Qed.

Lemma labelled_labels {R} (df : list R) :
  map fst (labelled df) = seq 0 (length df).
Proof.
  unfold labelled. rewrite <- (map_id (seq 0 (length df))).
  change (map fst (imap (fun i r => (id i, r)) df)
          = map id (seq 0 (length df))).
  generalize (@id nat). induction df as [|r df IH]; intros f; [reflexivity|].
  cbn. f_equal. rewrite <- seq_shift, map_map.
  apply (IH (fun i => f (S i))).
Qed.

Lemma sorted_body_unique {R} (key : R -> option Q) (df : list R)
    (body body' : list (nat * R)) :
  (forall i j r r' a b,
     df !! i = Some r -> df !! j = Some r' ->
     key r = Some a -> key r' = Some b -> a == b -> i = j) ->
  Permutation body (List.filter (notna key) (labelled df)) ->
  Permutation body' (List.filter (notna key) (labelled df)) ->
  StronglySorted (desc key) body -> StronglySorted (desc key) body' ->
  body = body'.
Proof.
  intros Hdistinct Hperm Hperm' Hs Hs'.
  apply (StronglySorted_unique_strong (desc key)); try assumption.
  2:{ rewrite Hperm, Hperm'. reflexivity. }
  intros x1 x2 Hx1 Hx2 H12 H21.
  rewrite Hperm in Hx1. rewrite Hperm' in Hx2.
  apply list_elem_of_In, filter_In in Hx1 as [Hx1 Hn1].
  apply list_elem_of_In, filter_In in Hx2 as [Hx2 Hn2].
  apply list_elem_of_In, elem_of_labelled in Hx1.
  apply list_elem_of_In, elem_of_labelled in Hx2.
  unfold notna, isna in Hn1, Hn2. unfold desc in H12, H21.
  destruct (key (snd x1)) as [a|] eqn:Ka; [|discriminate].
  destruct (key (snd x2)) as [b|] eqn:Kb; [|discriminate].
  assert (E : fst x1 = fst x2).
  { eapply Hdistinct; try eassumption. apply Qle_antisym; assumption. }
  destruct x1 as [i r], x2 as [j r']. cbn in *. subst j.
  rewrite Hx1 in Hx2. congruence.
Qed.

(** When no two rows of the frame have equal sort keys, the sort has one
    result only, whatever the sorting algorithm: the screen and the
    selection by HQM score are then determined by the frame.  Rows with a
    missing key do not matter, they follow in their original order. *)
Theorem distinct_keys_determine_the_result (n : nat) :
  (forall final_df out out',
     (forall i j r r' a b,
        final_df !! i = Some r -> final_df !! j = Some r' ->
        Momentum.One_Year_Price_Return r = Some a ->
        Momentum.One_Year_Price_Return r' = Some b -> a == b -> i = j) ->
     Momentum.top_n n final_df out -> Momentum.top_n n final_df out' ->
     out = out') /\
  (forall hqm_df out out',
     (forall i j r r' a b,
        hqm_df !! i = Some r -> hqm_df !! j = Some r' ->
        Momentum.score_key r = Some a -> Momentum.score_key r' = Some b ->
        a == b -> i = j) ->
     Momentum.best_n n hqm_df out -> Momentum.best_n n hqm_df out' ->
     out = out').
Proof.
  split.
  - intros final_df out out' Hdistinct (sorted & Hsort & ->)
      (sorted' & Hsort' & ->).
    destruct Hsort as [body Hperm Hs _]. destruct Hsort' as [body' Hperm' Hs' _].
    rewrite (sorted_body_unique _ _ body body' Hdistinct); auto.
  - intros hqm_df out out' Hdistinct (_ & sorted & Hsort & ->)
      (_ & sorted' & Hsort' & ->).
    destruct Hsort as [body Hperm Hs _]. destruct Hsort' as [body' Hperm' Hs' _].
    rewrite (sorted_body_unique _ _ body body' Hdistinct); auto.
Qed.

(** The column ['index'] that [reset_index()] leaves in the screen holds
    the position each kept row had in the fetched frame: the labels of the
    result are pairwise different and each one points at the row it comes
    with, unchanged. *)
Theorem screen_labels_point_at_rows (n : nat)
    (final_df : list Momentum.row) (out : list (nat * Momentum.row)) :
  Momentum.top_n n final_df out ->
  NoDup (map fst out) /\
  Forall (fun x => final_df !! fst x = Some (snd x)) out.
Proof.
  intros (sorted & Hsort & ->).
  pose proof (sort_values_permutation _ _ _ _ Hsort) as Hperm.
  split.
  - assert (Hnd : NoDup (map fst sorted)).
    { rewrite (Permutation_map fst Hperm), labelled_labels.
      apply NoDup_seq. }
    unfold head. rewrite <- (firstn_skipn n sorted), map_app in Hnd.
    apply NoDup_app in Hnd. tauto.
  - apply Forall_forall. intros x Hx. apply elem_of_labelled.
    rewrite <- Hperm. unfold head in Hx.
    apply elem_of_take in Hx as (k & Hk & _).
    eapply list_elem_of_lookup_2. eassumption.
Qed.

End SortedFrames.

Lemma distinct_keys_determine_the_result_witness :
  let A := Momentum.Row "A" (Some 100%Q) (Some (1#2)%Q) NA in
  let B := Momentum.Row "B" (Some 100%Q) (Some (1#10)%Q) NA in
  let C := Momentum.Row "C" (Some 100%Q) (Some (3#10)%Q) NA in
  Momentum.top_n 2 [A; B; C] [(0%nat, A); (2%nat, C)] /\
  forall out, Momentum.top_n 2 [A; B; C] out -> out = [(0%nat, A); (2%nat, C)].
Proof.
  intros A B C.
  assert (H : Momentum.top_n 2 [A; B; C] [(0%nat, A); (2%nat, C)]).
  { exists ([(0%nat, A); (2%nat, C); (1%nat, B)]
            ++ List.filter (Pandas.isna Momentum.One_Year_Price_Return)
                 (Pandas.labelled [A; B; C])).
    split; [|reflexivity]. constructor.
    - cbn. apply perm_skip. apply perm_swap.
    - repeat constructor; cbn; discriminate.
    - discriminate. }
  split; [exact H|]. intros out Hout.
  refine (proj1 (distinct_keys_determine_the_result 2) [A; B; C] _ _ _ Hout H).
  intros i j r r' a b Hi Hj Ha Hb Hab.
  destruct i as [|[|[|i]]]; try discriminate;
    destruct j as [|[|[|j]]]; try discriminate; try reflexivity;
    injection Hi as <-; injection Hj as <-;
    injection Ha as <-; injection Hb as <-; exfalso;
    vm_compute in Hab; discriminate.
Defined.

Lemma screen_labels_point_at_rows_witness :
  let A := Momentum.Row "A" (Some 100%Q) (Some (1#2)%Q) NA in
  let B := Momentum.Row "B" (Some 100%Q) (Some (1#10)%Q) NA in
  let C := Momentum.Row "C" (Some 100%Q) (Some (3#10)%Q) NA in
  Momentum.top_n 2 [A; B; C] [(0%nat, A); (2%nat, C)] /\
  NoDup (map fst [(0%nat, A); (2%nat, C)]).
Proof.
  intros A B C.
  assert (H : Momentum.top_n 2 [A; B; C] [(0%nat, A); (2%nat, C)]).
  { exists ([(0%nat, A); (2%nat, C); (1%nat, B)]
            ++ List.filter (Pandas.isna Momentum.One_Year_Price_Return)
                 (Pandas.labelled [A; B; C])).
    split; [|reflexivity]. constructor.
    - cbn. apply perm_skip. apply perm_swap.
    - repeat constructor; cbn; discriminate.
    - discriminate. }
  split; [exact H|].
  apply (proj1 (screen_labels_point_at_rows 2 [A; B; C] _ H)).
Defined.

(** ** The spreadsheets *)

Section Sheets.
Import Xlsx.

Lemma string_length_app (s t : string) :
  String.length (s ++ t) = (String.length s + String.length t)%nat.
Proof.
  induction s as [|c s IH]; [reflexivity|].
  change (S (String.length (s ++ t)) = S (String.length s + String.length t)).
  f_equal. exact IH.
Qed.

Lemma string_app_inj_prefix (s1 s2 t1 t2 : string) :
  String.length s1 = String.length s2 ->
  (s1 ++ t1)%string = (s2 ++ t2)%string -> s1 = s2.
Proof.
  revert s2. induction s1 as [|c s1 IH]; intros [|c' s2]; cbn; try discriminate.
  - reflexivity.
  - intros [= Hlen] [= -> E]. f_equal. eapply IH; eassumption.
Qed.

Lemma header_cell_inj (c1 c2 : string) :
  (c1 ++ "1")%string = (c2 ++ "1")%string -> c1 = c2.
Proof.
  intros E. apply (string_app_inj_prefix c1 c2 "1" "1"); [|assumption].
  apply (f_equal String.length) in E. rewrite !string_length_app in E.
  cbn in E. lia.
Qed.

Lemma column_range_inj (c1 c2 : string) :
  (c1 ++ ":" ++ c1)%string = (c2 ++ ":" ++ c2)%string -> c1 = c2.
Proof.
  intros E. apply (string_app_inj_prefix c1 c2 (":" ++ c1) (":" ++ c2));
    [|assumption].
  apply (f_equal String.length) in E. rewrite !string_length_app in E.
  cbn in E. lia.
Qed.

(** The loop over a dictionary of column formats, whose keys are pairwise
    different: afterwards the header cell of every key holds the name and
    the format the dictionary gives for it, and the column range of the key
    has the loop's width and that format; every other cell and every other
    column range is as it was. *)
Theorem format_loop_writes_its_dictionary (width : nat)
    (column_formats : list (string * (string * format))) :
  NoDup (map fst column_formats) ->
  forall ws,
    (forall column name fmt,
       (column, (name, fmt)) ∈ column_formats ->
       cells (format_columns width column_formats ws) !! (column ++ "1")%string
       = Some (name, Some fmt) /\
       columns (format_columns width column_formats ws)
         !! (column ++ ":" ++ column)%string
       = Some (width, fmt)) /\
    (forall cell,
       (forall column, column ∈ map fst column_formats ->
                       cell <> (column ++ "1")%string) ->
       cells (format_columns width column_formats ws) !! cell
       = cells ws !! cell) /\
    (forall range,
       (forall column, column ∈ map fst column_formats ->
                       range <> (column ++ ":" ++ column)%string) ->
       columns (format_columns width column_formats ws) !! range
       = columns ws !! range).
Proof.
  induction column_formats as [|[c [n f]] rest IH]; intros Hnd ws.
  - split; [|split]; [|reflexivity|reflexivity].
    intros column name fmt Hin. apply elem_of_nil in Hin. destruct Hin.
  - cbn [map fst] in Hnd. apply NoDup_cons in Hnd as [Hc Hnd].
    unfold format_columns. cbn [fold_left fst snd].
    set (ws1 := write (c ++ "1") n f (set_column (c ++ ":" ++ c) width f ws)).
    destruct (IH Hnd ws1) as (Hdict & Hcells & Hcols).
    fold (format_columns width rest ws1). split; [|split].
    + intros column name fmt Hin. apply elem_of_cons in Hin as [E|Hin].
      * injection E as -> -> ->. split.
        -- rewrite Hcells.
           ++ unfold ws1. cbn. apply lookup_insert_eq.
           ++ intros column Hcol E. apply header_cell_inj in E. subst column.
              contradiction.
        -- rewrite Hcols.
           ++ unfold ws1. cbn. apply lookup_insert_eq.
           ++ intros column Hcol E. apply column_range_inj in E. subst column.
              contradiction.
      * apply Hdict. assumption.
    + intros cell Hcell. rewrite Hcells.
      * unfold ws1. cbn. apply lookup_insert_ne. intros E.
        apply (Hcell c); [apply list_elem_of_here|]. symmetry. exact E.
      * intros column Hcol. apply Hcell. apply list_elem_of_further.
        assumption.
    + intros range Hrange. rewrite Hcols.
      * unfold ws1. cbn. apply lookup_insert_ne. intros E.
        apply (Hrange c); [apply list_elem_of_here|]. symmetry. exact E.
      * intros column Hcol. apply Hrange. apply list_elem_of_further.
        assumption.
Qed.

(** The headers against the data.  [to_excel] puts the data of the [k]-th
    column of the frame under the [k]-th letter.  In the sheet of the first
    script every header names the column under it.  In the sheet of the
    second script the dictionary jumps from ["H"] to ["J"]: the headers of
    columns A to I name their columns, but J, K and L carry the names of
    the columns to their left, so that the one-month return, its percentile
    and the HQM score stand under the headers of other columns, no header
    names the HQM score, and column I gets no width or format. *)
Theorem headers_against_columns :
  let header ws l := fst <$> cells ws !! (l ++ "1")%string in
  let first := EqualWeightSheet.recommended_trades in
  let first_data := to_excel_header EqualWeightSheet.my_columns in
  let second := MomentumSheet.momentum_strategy in
  let second_data := to_excel_header MomentumSheet.written_columns in
  Forall (fun l => header first l = header first_data l) letters /\
  Forall (fun l => header second l = header second_data l)
         ["A"; "B"; "C"; "D"; "E"; "F"; "G"; "H"; "I"]%string /\
  header second_data "J"%string = Some "One-Month Price Return"%string /\
  header second "J"%string = Some "Three-Month Return Percentile"%string /\
  header second_data "K"%string = Some "One-Month Return Percentile"%string /\
  header second "K"%string = Some "One-Month Price Return"%string /\
  header second_data "L"%string = Some "HQM Score"%string /\
  header second "L"%string = Some "One-Month Return Percentile"%string /\
  Forall (fun l => header second l <> Some "HQM Score"%string) letters /\
  columns second !! "I:I"%string = None.
Proof.
  cbn zeta.
  split; [repeat (apply List.Forall_cons; [vm_compute; reflexivity|]);
          apply List.Forall_nil|].
  split; [repeat (apply List.Forall_cons; [vm_compute; reflexivity|]);
          apply List.Forall_nil|].
  do 6 (split; [vm_compute; reflexivity|]).
  split; [|vm_compute; reflexivity].
  repeat (apply List.Forall_cons; [vm_compute; discriminate|]).
  apply List.Forall_nil.
Qed.

End Sheets.

Lemma format_loop_writes_its_dictionary_witness :
  NoDup (map fst MomentumSheet.column_formats) /\
  Xlsx.cells MomentumSheet.momentum_strategy !! "J1"%string
  = Some ("Three-Month Return Percentile"%string,
          Some MomentumSheet.percent_template).
Proof.
  assert (H : NoDup (map fst MomentumSheet.column_formats)).
  { apply (bool_decide_unpack _). vm_compute. reflexivity. }
  split; [exact H|].
  apply (proj1 (format_loop_writes_its_dictionary 22
                  MomentumSheet.column_formats H
                  (Xlsx.to_excel_header MomentumSheet.written_columns))
           "J"%string "Three-Month Return Percentile"%string
           MomentumSheet.percent_template).
  unfold MomentumSheet.column_formats.
  do 8 apply list_elem_of_further. apply list_elem_of_here.
Defined.
